(** * ElectricBoat: the electrical calculation and validation engine

    A shallow embedding of the calculation modules of the repository
    ([utils/calculations/power.ts], [battery.ts], [cables.ts],
    [validation.ts], the tables and lookups of [data/cableStandards.ts],
    the status rule of the fuse recommendation panel, the node and
    connection actions of [store/useProjectStore.ts] and the device
    calculations of [utils/calculations.ts]), followed by the properties
    the specification states about them and by further properties read
    off the code.

    Conventions of the embedding.
    - A JavaScript [number] is an exact rational ([Q]); the two places
      where the source produces [Infinity] return an [xnum].  Floating
      rounding is not modelled.  The divisors of the source are non-zero
      on well-formed data (voltages are 12, 24 or 48, [sectionMm2 > 0]).
    - [a === b] on numbers is [Qeq_bool], on strings [String.eqb] or the
      decided equality; [Math.round x] is [Qfloor (x + 1/2)].
    - An optional field [f?: T] is an [option]; [x ?? d] is [default d x].
      The battery [configuration], which the source tests with [in], keeps
      the difference between a missing key and a key set to [undefined].
    - [new Map(...)] is a [gmap], [new Set()] a [gset]; arrays are lists.
    - Message strings are kept as the data they are formatted from. *)

From Stdlib Require Import QArith Qround Lqa Lia ZArith Sorted.
From stdpp Require Import base gmap sets list strings.

Local Open Scope Q_scope.

(** ** Numbers *)

Module Num.

Definition ltb (a b : Q) : bool := negb (Qle_bool b a).
Definition leb (a b : Q) : bool := Qle_bool a b.
Definition gtb (a b : Q) : bool := ltb b a.
Definition geb (a b : Q) : bool := leb b a.
Definition eqb (a b : Q) : bool := Qeq_bool a b.

(** [Math.round]: the nearest integer, halves going up. *)
Definition round (x : Q) : Z := Qfloor (x + 1 / 2).

(** [Math.round(x * k) / k]. *)
Definition roundTo (k : Q) (x : Q) : Q := inject_Z (round (x * k)) / k.

(** A number that may be [Infinity]. *)
Inductive xnum : Type :=
| Fin (q : Q)
| PInf.

(** [Math.max(x, q)]. *)
Definition xmax (x : xnum) (q : Q) : xnum :=
  match x with
  | PInf => PInf
  | Fin p => Fin (if ltb p q then q else p)
  end.

(** [q >= x]. *)
Definition geb_x (q : Q) (x : xnum) : bool :=
  match x with
  | PInf => false
  | Fin p => geb q p
  end.

(** [x >= q]. *)
Definition xgeb (x : xnum) (q : Q) : bool :=
  match x with
  | PInf => true
  | Fin p => geb p q
  end.




End Num.

(** ** models/types.ts *)

Inductive Voltage : Type := V12 | V24 | V48.

Definition volts (v : Voltage) : Q :=
  match v with
  | V12 => 12
  | V24 => 24
  | V48 => 48
  end.

Inductive NodeType : Type :=
| consumer | battery | solar | alternator | charger
| inverter | bus | fuse | switch.

Inductive BatteryChemistry : Type := lead | agm | gel | lifepo4 | lithium.

Inductive Configuration : Type := series | parallel.

(** A key of an object: missing, present with [undefined], or set. *)
Inductive field (A : Type) : Type :=
| Absent
| Undefined
| Present (a : A).
Arguments Absent {A}.
Arguments Undefined {A}.
Arguments Present {A} a.

(** [NodeSpecificProps]: the fields the calculations read. *)
Inductive NodeSpecificProps : Type :=
| ConsumerProps (powerW currentA : option Q) (dailyHours dutyCycle : Q)
| BatteryProps (capacityAh : Q) (chemistry : BatteryChemistry)
    (quantity : option Q) (configuration : field Configuration)
| SolarProps (maxPowerW : Q) (efficiency quantity : option Q)
| AlternatorProps (maxPowerW : Q) (efficiency engineHoursPerDay : option Q)
| ChargerProps (maxPowerW : Q)
| InverterProps (maxPowerW : Q) (efficiency : option Q)
| BusProps (maxCurrentA : Q)
| FuseProps (ratingA : Q)
| SwitchProps (maxCurrentA : Q).

(** [ElectricalNode = ElectricalNodeBase & NodeSpecificProps]; the tag
    [type] is the constructor of [props]. *)
Record ElectricalNode : Type := {
  id : string;
  name : string;
  voltage : Voltage;
  props : NodeSpecificProps
}.

Definition type (n : ElectricalNode) : NodeType :=
  match props n with
  | ConsumerProps _ _ _ _ => consumer
  | BatteryProps _ _ _ _ => battery
  | SolarProps _ _ _ => solar
  | AlternatorProps _ _ _ => alternator
  | ChargerProps _ => charger
  | InverterProps _ _ => inverter
  | BusProps _ => bus
  | FuseProps _ => fuse
  | SwitchProps _ => switch
  end.

Global Instance NodeType_eq_dec : EqDecision NodeType.
Proof. solve_decision. Defined.

Global Instance Voltage_eq_dec : EqDecision Voltage.
Proof. solve_decision. Defined.

Global Instance BatteryChemistry_eq_dec : EqDecision BatteryChemistry.
Proof. solve_decision. Defined.

Record Connection : Type := {
  connId : string;
  fromNodeId : string;
  toNodeId : string;
  sectionMm2 : Q;
  lengthM : Q
}.

Inductive CableStatus : Type := st_ok | st_warning | st_overload.

Global Instance CableStatus_eq_dec : EqDecision CableStatus.
Proof. solve_decision. Defined.

Record CableAnalysis : Type := {
  connectionId : string;
  currentA : Q;
  voltageDrop : Q;
  voltageDropPercent : Q;
  powerLossW : Q;
  recommendedSectionMm2 : Q;
  status : CableStatus
}.

Inductive ErrorType : Type :=
| voltage_mismatch | overcurrent | no_source | disconnected.

Inductive WarningType : Type :=
| voltage_drop | undersized_cable | low_battery | unbalanced.

Global Instance ErrorType_eq_dec : EqDecision ErrorType.
Proof. solve_decision. Defined.

Global Instance WarningType_eq_dec : EqDecision WarningType.
Proof. solve_decision. Defined.

(** The text of a finding, as the template and the values it prints. *)
Inductive Message : Type :=
| MsgNoBattery
| MsgVoltageMismatch (fromV toV : Voltage)
| MsgOverload (currentA : Q)
| MsgHighDrop (voltageDropPercent : Q)
| MsgRecommendedSection (recommended actual : Q)
| MsgNotConnected (nodeName : string)
| MsgBatteryInsufficient
| MsgBatteryLimited
| MsgProductionInsufficient (percent : Z).

Record ValidationError : Type := {
  errType : ErrorType;
  errNodeIds : option (list string);
  errConnectionId : option string;
  errMessage : Message
}.

Record ValidationWarning : Type := {
  warnType : WarningType;
  warnNodeIds : option (list string);
  warnConnectionId : option string;
  warnMessage : Message
}.

Record CircuitValidation : Type := {
  isValid : bool;
  errors : list ValidationError;
  warnings : list ValidationWarning
}.

(** ** data/cableStandards.ts *)

Module CableStandards.

Record CableSpec : Type := {
  specSectionMm2 : Q;
  maxCurrentA : Q;
  recommendedFuseA : Q;
  resistancePerKm : Q
}.

Definition mk (s i f r : Q) : CableSpec :=
  {| specSectionMm2 := s; maxCurrentA := i;
     recommendedFuseA := f; resistancePerKm := r |}.

Definition cableStandards : list CableSpec :=
  [ mk 0.5 3 3 36.7;
    mk 0.75 6 5 24.8;
    mk 1.0 10 7.5 18.2;
    mk 1.5 15 10 12.2;
    mk 2.5 20 15 7.41;
    mk 4 30 25 4.61;
    mk 6 40 30 3.08;
    mk 10 60 50 1.83;
    mk 16 80 60 1.15;
    mk 25 110 80 0.727;
    mk 35 140 100 0.524;
    mk 50 175 150 0.387;
    mk 70 215 175 0.268;
    mk 95 265 200 0.193;
    mk 120 310 250 0.153 ].

Definition COPPER_RESISTIVITY : Q := 0.0175.

Definition MAX_VOLTAGE_DROP_PERCENT : Q := 3.

(** [cableStandards.find(spec => spec.sectionMm2 === sectionMm2)]. *)
Definition getCableSpecBySection (sectionMm2 : Q) : option CableSpec :=
  List.find (fun spec => Num.eqb (specSectionMm2 spec) sectionMm2)
    cableStandards.

(** [cableStandards[cableStandards.length - 1].sectionMm2]. *)
Definition lastSection : Q :=
  default 0 (specSectionMm2 <$> last cableStandards).

Definition standardFuseRatings : list Q :=
  [1; 2; 3; 5; 7.5; 10; 15; 20; 25; 30; 35; 40; 50; 60; 70; 80; 100; 125;
   150; 175; 200; 250; 300].

(** [standardFuseRatings.find(rating => rating >= targetRating)
      ?? standardFuseRatings[standardFuseRatings.length - 1]]. *)
Definition getRecommendedFuse (currentA : Q) : Q :=
  let targetRating := currentA * 1.25 in
  default (default 0 (last standardFuseRatings))
    (List.find (fun rating => Num.geb rating targetRating)
       standardFuseRatings).

Definition getNextStandardSection (minSectionMm2 : Q) : option CableSpec :=
  List.find (fun spec => Num.geb (specSectionMm2 spec) minSectionMm2)
    cableStandards.


End CableStandards.

(** ** utils/calculations/power.ts *)

Module Power.

Definition DEFAULT_SUN_HOURS : Q := 5.
Definition DEFAULT_SOLAR_EFFICIENCY : Q := 0.7.
Definition DEFAULT_ALTERNATOR_EFFICIENCY : Q := 0.85.

Definition getNodeCurrent (node : ElectricalNode) : Q :=
  match props node with
  | ConsumerProps powerW currentA _ _ =>
      match currentA with
      | Some c => c
      | None =>
          match powerW with
          | Some p => p / volts (voltage node)
          | None => 0
          end
      end
  | _ => 0
  end.


Definition getNodeDailyAh (node : ElectricalNode) : Q :=
  match props node with
  | ConsumerProps _ _ dailyHours dutyCycle =>
      getNodeCurrent node * dailyHours * dutyCycle
  | _ => 0
  end.

(** [arr.reduce((sum, n) => sum + f(n), 0)]. *)
Definition sumOf {A : Type} (f : A -> Q) (l : list A) : Q :=
  fold_left (fun sum n => sum + f n) l 0.

Definition isType (t : NodeType) (n : ElectricalNode) : bool :=
  bool_decide (type n = t).

Definition getTotalDailyConsumptionAh (nodes : list ElectricalNode) : Q :=
  sumOf getNodeDailyAh (List.filter (isType consumer) nodes).


Definition getSolarDailyAh (node : ElectricalNode) (sunHours : Q) : Q :=
  match props node with
  | SolarProps maxPowerW efficiency quantity =>
      (maxPowerW * default 1 quantity * sunHours
       * default DEFAULT_SOLAR_EFFICIENCY efficiency)
      / volts (voltage node)
  | _ => 0
  end.

Definition getTotalSolarDailyAh
    (nodes : list ElectricalNode) (sunHours : Q) : Q :=
  sumOf (fun n => getSolarDailyAh n sunHours)
    (List.filter (isType solar) nodes).

Definition getAlternatorDailyAh (node : ElectricalNode) : Q :=
  match props node with
  | AlternatorProps maxPowerW efficiency engineHoursPerDay =>
      let maxCurrent :=
        (maxPowerW * default DEFAULT_ALTERNATOR_EFFICIENCY efficiency)
        / volts (voltage node) in
      maxCurrent * default 0 engineHoursPerDay
  | _ => 0
  end.

Definition getTotalAlternatorDailyAh (nodes : list ElectricalNode) : Q :=
  sumOf getAlternatorDailyAh (List.filter (isType alternator) nodes).


Definition getTotalDailyProductionAh
    (nodes : list ElectricalNode) (sunHours : Q) : Q :=
  let solar := getTotalSolarDailyAh nodes sunHours in
  let alternator := getTotalAlternatorDailyAh nodes in
  solar + alternator.






End Power.

(** ** utils/calculations/battery.ts *)

Module Battery.

Import Power.

Definition DOD_BY_CHEMISTRY (c : BatteryChemistry) : Q :=
  match c with
  | lead => 0.5
  | agm => 0.5
  | gel => 0.5
  | lifepo4 => 0.8
  | lithium => 0.8
  end.

Definition DEFAULT_DAYS_AUTONOMY : Q := 2.

(** ['configuration' in n ? n.configuration : 'parallel'], then the test
    [config === 'parallel']. *)
Definition configIsParallel (configuration : field Configuration) : bool :=
  match configuration with
  | Absent => true
  | Undefined => false
  | Present parallel => true
  | Present series => false
  end.

(** The reducer of [getTotalBatteryCapacityAh]. *)
Definition addBatteryCapacity (sum : Q) (n : ElectricalNode) : Q :=
  match props n with
  | BatteryProps capacityAh _ quantity configuration =>
      let quantity := default 1 quantity in
      if configIsParallel configuration
      then sum + capacityAh * quantity
      else sum + capacityAh
  | _ => sum
  end.

Definition getTotalBatteryCapacityAh (nodes : list ElectricalNode) : Q :=
  fold_left addBatteryCapacity (List.filter (isType battery) nodes) 0.

(** [capacityByChemistry[chemistry] =
     (capacityByChemistry[chemistry] ?? 0) + capacity], the keys kept in
    insertion order, as [Object.entries] lists them. *)
Fixpoint addCapacity (chemistry : BatteryChemistry) (capacity : Q)
    (tbl : list (BatteryChemistry * Q)) : list (BatteryChemistry * Q) :=
  match tbl with
  | [] => [(chemistry, 0 + capacity)]
  | (k, v) :: rest =>
      if bool_decide (k = chemistry)
      then (k, v + capacity) :: rest
      else (k, v) :: addCapacity chemistry capacity rest
  end.

Definition getDominantBatteryChemistry
    (nodes : list ElectricalNode) : BatteryChemistry :=
  let batteries := List.filter (isType battery) nodes in
  match batteries with
  | [] => lead
  | _ =>
      let capacityByChemistry :=
        fold_left
          (fun tbl bat =>
             match props bat with
             | BatteryProps capacityAh chemistry quantity _ =>
                 addCapacity chemistry (capacityAh * default 1 quantity) tbl
             | _ => tbl
             end)
          batteries [] in
      snd
        (fold_left
           (fun acc entry =>
              if Num.gtb (snd entry) (fst acc)
              then (snd entry, fst entry)
              else acc)
           capacityByChemistry (0, lead))
  end.

Definition getEffectiveDoD (nodes : list ElectricalNode) : Q :=
  DOD_BY_CHEMISTRY (getDominantBatteryChemistry nodes).

Definition getUsableBatteryCapacityAh (nodes : list ElectricalNode) : Q :=
  let totalCapacity := getTotalBatteryCapacityAh nodes in
  let dod := getEffectiveDoD nodes in
  totalCapacity * dod.

Definition getEstimatedAutonomyDays
    (usableCapacityAh dailyConsumptionAh : Q) : Num.xnum :=
  if Num.leb dailyConsumptionAh 0 then Num.PInf
  else Num.Fin (usableCapacityAh / dailyConsumptionAh).

Definition getEstimatedAutonomyDaysFromNodes
    (nodes : list ElectricalNode) : Num.xnum :=
  let usableCapacity := getUsableBatteryCapacityAh nodes in
  let dailyConsumption := getTotalDailyConsumptionAh nodes in
  getEstimatedAutonomyDays usableCapacity dailyConsumption.

Inductive BatteryStatus : Type := bs_ok | bs_warning | bs_critical.

Definition getBatteryStatus
    (nodes : list ElectricalNode) (requiredAutonomyDays : Q) : BatteryStatus :=
  let estimatedAutonomy := getEstimatedAutonomyDaysFromNodes nodes in
  if Num.xgeb estimatedAutonomy requiredAutonomyDays then bs_ok
  else if Num.xgeb estimatedAutonomy (requiredAutonomyDays * 0.5)
       then bs_warning
       else bs_critical.





End Battery.

(** ** utils/calculations/cables.ts *)

Module Cables.

Import CableStandards Power.

Definition calculateVoltageDrop (currentA lengthM sectionMm2 : Q) : Q :=
  (2 * COPPER_RESISTIVITY * lengthM * currentA) / sectionMm2.


Definition calculatePowerLoss (currentA lengthM sectionMm2 : Q) : Q :=
  let resistance := (2 * COPPER_RESISTIVITY * lengthM) / sectionMm2 in
  currentA * currentA * resistance.

Definition calculateMinSection
    (currentA lengthM voltage maxDropPercent : Q) : Num.xnum :=
  let maxDropVolts := voltage * (maxDropPercent / 100) in
  if Num.leb maxDropVolts 0 then Num.PInf
  else Num.Fin ((2 * COPPER_RESISTIVITY * lengthM * currentA) / maxDropVolts).

Definition getRecommendedSection
    (currentA lengthM voltage maxDropPercent : Q) : Q :=
  let minSectionForDrop :=
    calculateMinSection currentA lengthM voltage maxDropPercent in
  let requiredCurrent := currentA * 1.25 in
  let sectionForCurrent :=
    List.find (fun s => Num.geb (maxCurrentA s) requiredCurrent)
      cableStandards in
  let minSectionForCurrent :=
    default 0.5 (specSectionMm2 <$> sectionForCurrent) in
  let minSection := Num.xmax minSectionForDrop minSectionForCurrent in
  let standard :=
    List.find (fun s => Num.geb_x (specSectionMm2 s) minSection)
      cableStandards in
  default lastSection (specSectionMm2 <$> standard).

Definition isCableOversized
    (connection : Connection) (currentA voltage : Q) : bool :=
  let recommended :=
    getRecommendedSection currentA (lengthM connection) voltage
      MAX_VOLTAGE_DROP_PERCENT in
  Num.gtb (sectionMm2 connection) (recommended * 1.5).

(** The current [analyzeCable] works with (its first statement block). *)
Definition cableCurrent (fromNode toNode : ElectricalNode) : Q :=
  if isType consumer fromNode then getNodeCurrent fromNode
  else if isType consumer toNode then getNodeCurrent toNode
  else
    match props fromNode with
    | BatteryProps capacityAh _ _ _ => capacityAh / 5
    | _ => 0
    end.

(** The status block of [analyzeCable]. *)
Definition cableStatus
    (connection : Connection) (currentA voltageDropPercent : Q) : CableStatus :=
  let cableSpec := getCableSpecBySection (sectionMm2 connection) in
  let maxCurrent := default 0 (maxCurrentA <$> cableSpec) in
  if Num.gtb currentA maxCurrent then st_overload
  else if Num.gtb voltageDropPercent MAX_VOLTAGE_DROP_PERCENT
       then st_warning
       else st_ok.

Definition analyzeCable
    (connection : Connection) (fromNode toNode : ElectricalNode)
    : CableAnalysis :=
  let currentA := cableCurrent fromNode toNode in
  let voltage := volts (voltage fromNode) in
  let voltageDrop :=
    calculateVoltageDrop currentA (lengthM connection)
      (sectionMm2 connection) in
  let voltageDropPercent := (voltageDrop / voltage) * 100 in
  let powerLossW :=
    calculatePowerLoss currentA (lengthM connection)
      (sectionMm2 connection) in
  let recommendedSection :=
    getRecommendedSection currentA (lengthM connection) voltage
      MAX_VOLTAGE_DROP_PERCENT in
  {| connectionId := connId connection;
     currentA := Num.roundTo 10 currentA;
     voltageDrop := Num.roundTo 1000 voltageDrop;
     voltageDropPercent := Num.roundTo 100 voltageDropPercent;
     powerLossW := Num.roundTo 10 powerLossW;
     recommendedSectionMm2 := recommendedSection;
     status := cableStatus connection currentA voltageDropPercent |}.

(** [new Map(nodes.map(n => [n.id, n]))]: a later node with the same id
    replaces an earlier one. *)
Definition buildNodeMap (nodes : list ElectricalNode)
    : gmap string ElectricalNode :=
  fold_left (fun m n => <[id n := n]> m) nodes ∅.

(** The row returned for a connection with a missing endpoint. *)
Definition emptyAnalysis (conn : Connection) : CableAnalysis :=
  {| connectionId := connId conn;
     currentA := 0;
     voltageDrop := 0;
     voltageDropPercent := 0;
     powerLossW := 0;
     recommendedSectionMm2 := 0.5;
     status := st_ok |}.

Definition analyzeAllCables
    (connections : list Connection) (nodes : list ElectricalNode)
    : list CableAnalysis :=
  let nodeMap := buildNodeMap nodes in
  map
    (fun conn =>
       match nodeMap !! fromNodeId conn, nodeMap !! toNodeId conn with
       | Some fromNode, Some toNode => analyzeCable conn fromNode toNode
       | _, _ => emptyAnalysis conn
       end)
    connections.

Definition getOverloadedCables
    (analyses : list CableAnalysis) : list CableAnalysis :=
  List.filter (fun a => bool_decide (status a = st_overload)) analyses.

Definition getHighVoltageDropCables
    (analyses : list CableAnalysis) : list CableAnalysis :=
  List.filter
    (fun a =>
       bool_decide (status a = st_warning)
       || Num.gtb (voltageDropPercent a) MAX_VOLTAGE_DROP_PERCENT)
    analyses.

Definition getTotalPowerLoss (analyses : list CableAnalysis) : Q :=
  fold_left (fun sum a => sum + powerLossW a) analyses 0.


End Cables.

(** ** The status rule of the fuse recommendation panel *)

Module FusePanel.

Import CableStandards.

Inductive FuseInfoStatus : Type := fi_ok | fi_warning | fi_oversized.

(** [current] is the analysed current of the connection
    ([analysis?.currentA ?? 0]). *)
Definition fuseInfoStatus (conn : Connection) (current : Q) : FuseInfoStatus :=
  let cableSpec := getCableSpecBySection (sectionMm2 conn) in
  let maxCableCapacity := default 0 (maxCurrentA <$> cableSpec) in
  if Num.gtb current (maxCableCapacity * 0.8) then fi_warning
  else if Num.ltb current (maxCableCapacity * 0.3)
          && Num.gtb (sectionMm2 conn) 1.5
       then fi_oversized
       else fi_ok.

End FusePanel.

(** ** utils/calculations/validation.ts *)

Module Validation.

Import Power Battery Cables.

(** The loop of [checkVoltageMismatch]: the finding pushed for one
    connection, if any. *)
Definition voltageMismatchError
    (conn : Connection) (fromNode toNode : ElectricalNode) : ValidationError :=
  {| errType := voltage_mismatch;
     errNodeIds := Some [id fromNode; id toNode];
     errConnectionId := Some (connId conn);
     errMessage := MsgVoltageMismatch (voltage fromNode) (voltage toNode) |}.

Definition checkVoltageMismatch
    (nodes : list ElectricalNode) (connections : list Connection)
    : list ValidationError :=
  let nodeMap := buildNodeMap nodes in
  flat_map
    (fun conn =>
       match nodeMap !! fromNodeId conn, nodeMap !! toNodeId conn with
       | Some fromNode, Some toNode =>
           if bool_decide (voltage fromNode <> voltage toNode)
           then [voltageMismatchError conn fromNode toNode]
           else []
       | _, _ => []
       end)
    connections.

Definition connectedNodeIds (connections : list Connection) : gset string :=
  fold_left
    (fun s conn => {[toNodeId conn]} ∪ ({[fromNodeId conn]} ∪ s))
    connections ∅.

Definition checkDisconnectedNodes
    (nodes : list ElectricalNode) (connections : list Connection)
    : list ValidationWarning :=
  let connected := connectedNodeIds connections in
  flat_map
    (fun node =>
       if isType bus node || isType switch node || isType fuse node
       then []
       else if bool_decide (id node ∈ connected)
            then []
            else [ {| warnType := voltage_drop;
                      warnNodeIds := Some [id node];
                      warnConnectionId := None;
                      warnMessage := MsgNotConnected (name node) |} ])
    nodes.

Definition overcurrentErrors
    (cableAnalyses : list CableAnalysis) : list ValidationError :=
  flat_map
    (fun analysis =>
       if bool_decide (status analysis = st_overload)
       then [ {| errType := overcurrent;
                 errNodeIds := None;
                 errConnectionId := Some (connectionId analysis);
                 errMessage := MsgOverload (currentA analysis) |} ]
       else [])
    cableAnalyses.

Definition cableWarnings
    (connections : list Connection) (cableAnalyses : list CableAnalysis)
    : list ValidationWarning :=
  flat_map
    (fun analysis =>
       (if bool_decide (status analysis = st_warning)
        then [ {| warnType := voltage_drop;
                  warnNodeIds := None;
                  warnConnectionId := Some (connectionId analysis);
                  warnMessage := MsgHighDrop (voltageDropPercent analysis) |} ]
        else [])
       ++
       (if Num.gtb (recommendedSectionMm2 analysis) 0
        then
          match List.find
                  (fun c => String.eqb (connId c) (connectionId analysis))
                  connections with
          | Some conn =>
              if Num.ltb (sectionMm2 conn) (recommendedSectionMm2 analysis)
              then [ {| warnType := undersized_cable;
                        warnNodeIds := None;
                        warnConnectionId := Some (connectionId analysis);
                        warnMessage :=
                          MsgRecommendedSection
                            (recommendedSectionMm2 analysis)
                            (sectionMm2 conn) |} ]
              else []
          | None => []
          end
        else []))
    cableAnalyses.

Definition batteryWarnings
    (nodes : list ElectricalNode) : list ValidationWarning :=
  match getBatteryStatus nodes DEFAULT_DAYS_AUTONOMY with
  | bs_critical =>
      [ {| warnType := low_battery; warnNodeIds := None;
           warnConnectionId := None;
           warnMessage := MsgBatteryInsufficient |} ]
  | bs_warning =>
      [ {| warnType := low_battery; warnNodeIds := None;
           warnConnectionId := None;
           warnMessage := MsgBatteryLimited |} ]
  | bs_ok => []
  end.

Definition balanceWarnings
    (nodes : list ElectricalNode) : list ValidationWarning :=
  let dailyConsumption := getTotalDailyConsumptionAh nodes in
  let dailyProduction := getTotalDailyProductionAh nodes DEFAULT_SUN_HOURS in
  if Num.gtb dailyProduction 0 && Num.gtb dailyConsumption 0
  then
    let ratio := dailyProduction / dailyConsumption in
    if Num.ltb ratio 0.8
    then [ {| warnType := unbalanced; warnNodeIds := None;
              warnConnectionId := None;
              warnMessage :=
                MsgProductionInsufficient (Num.round (ratio * 100)) |} ]
    else []
  else [].

Definition validateCircuit
    (nodes : list ElectricalNode) (connections : list Connection)
    : CircuitValidation :=
  let hasBattery := existsb (isType battery) nodes in
  let noSource :=
    if negb hasBattery
    then [ {| errType := no_source; errNodeIds := None;
              errConnectionId := None; errMessage := MsgNoBattery |} ]
    else [] in
  let voltageErrors := checkVoltageMismatch nodes connections in
  let disconnectedWarnings := checkDisconnectedNodes nodes connections in
  let cableAnalyses := analyzeAllCables connections nodes in
  let errors := noSource ++ voltageErrors ++ overcurrentErrors cableAnalyses in
  let warnings :=
    disconnectedWarnings ++ cableWarnings connections cableAnalyses
    ++ batteryWarnings nodes ++ balanceWarnings nodes in
  {| isValid := Nat.eqb (length errors) 0;
     errors := errors;
     warnings := warnings |}.

Definition isSourceType (t : NodeType) : bool :=
  match t with
  | battery | solar | alternator | charger => true
  | _ => false
  end.

(** The inner [for] loop of [isNodeConnectedToSource]: the ids pushed on
    the queue while [currentId] is expanded. *)
Definition pushNeighbours
    (currentId : string) (visited : gset string)
    (connections : list Connection) : list string :=
  flat_map
    (fun conn =>
       (if bool_decide (fromNodeId conn = currentId)
           && negb (bool_decide (toNodeId conn ∈ visited))
        then [toNodeId conn] else [])
       ++
       (if bool_decide (toNodeId conn = currentId)
           && negb (bool_decide (fromNodeId conn ∈ visited))
        then [fromNodeId conn] else []))
    connections.

(** The [while] loop of [isNodeConnectedToSource], one iteration per unit
    of fuel; [None] when the fuel runs out. *)
Fixpoint searchSource (fuel : nat)
    (nodes : list ElectricalNode) (connections : list Connection)
    (visited : gset string) (queue : list string) : option bool :=
  match fuel with
  | O => None
  | S fuel' =>
      match queue with
      | [] => Some false
      | currentId :: rest =>
          if bool_decide (currentId ∈ visited)
          then searchSource fuel' nodes connections visited rest
          else
            let visited' := {[currentId]} ∪ visited in
            match List.find (fun n => String.eqb (id n) currentId) nodes with
            | None => searchSource fuel' nodes connections visited' rest
            | Some currentNode =>
                if isSourceType (type currentNode) then Some true
                else
                  searchSource fuel' nodes connections visited'
                    (rest ++ pushNeighbours currentId visited' connections)
            end
      end
  end.

(** Iterations that always suffice: every id is expanded at most once and
    an expansion pushes at most two ids per connection. *)
Definition searchFuel (connections : list Connection) : nat :=
  let e := (2 * length connections)%nat in
  S (S (e * S e)).

Definition isNodeConnectedToSource
    (nodeId : string) (nodes : list ElectricalNode)
    (connections : list Connection) : bool :=
  default false
    (searchSource (searchFuel connections) nodes connections ∅ [nodeId]).

Definition findUnpoweredConsumers
    (nodes : list ElectricalNode) (connections : list Connection)
    : list ElectricalNode :=
  List.filter
    (fun n => negb (isNodeConnectedToSource (id n) nodes connections))
    (List.filter (isType consumer) nodes).

End Validation.

(** ** store/useProjectStore.ts: the actions on nodes and connections *)

Module ProjectStore.

(** The electrical data of a [Project].  The name, the template, the
    settings and the [updatedAt] clock value play no part in the actions
    below other than being carried along or stamped. *)
Record Project : Type := {
  nodes : list ElectricalNode;
  connections : list Connection
}.

Record Store : Type := {
  project : Project;
  isDirty : bool
}.

(** [CreateConnectionInput]: a connection without its [id] and [lengthM]. *)
Record CreateConnectionInput : Type := {
  inputFromNodeId : string;
  inputToNodeId : string;
  inputSectionMm2 : Q
}.

(** [newId] is the value of [generateId()]. *)
Definition addNode (newId : string) (input : ElectricalNode) (state : Store)
    : ElectricalNode * Store :=
  let node :=
    {| id := newId; name := name input; voltage := voltage input;
       props := props input |} in
  (node,
   {| project :=
        {| nodes := nodes (project state) ++ [node];
           connections := connections (project state) |};
      isDirty := true |}).

Definition removeNode (i : string) (state : Store) : Store :=
  {| project :=
       {| nodes :=
            List.filter (fun n => negb (String.eqb (id n) i))
              (nodes (project state));
          connections :=
            List.filter
              (fun c =>
                 negb (String.eqb (fromNodeId c) i)
                 && negb (String.eqb (toNodeId c) i))
              (connections (project state)) |};
     isDirty := true |}.

(** [newId] is the value of [generateId()] and [cableLength] the value of
    [calculateCableLength(fromNode, toNode, input.waypoints)]; the error
    is the one the source throws. *)
Definition addConnection (newId : string) (cableLength : Q)
    (input : CreateConnectionInput) (state : Store)
    : Connection * Store + string :=
  let fromNode :=
    List.find (fun n => String.eqb (id n) (inputFromNodeId input))
      (nodes (project state)) in
  let toNode :=
    List.find (fun n => String.eqb (id n) (inputToNodeId input))
      (nodes (project state)) in
  match fromNode, toNode with
  | Some _, Some _ =>
      let connection :=
        {| connId := newId;
           fromNodeId := inputFromNodeId input;
           toNodeId := inputToNodeId input;
           sectionMm2 := inputSectionMm2 input;
           lengthM := cableLength |} in
      inl (connection,
           {| project :=
                {| nodes := nodes (project state);
                   connections :=
                     connections (project state) ++ [connection] |};
              isDirty := true |})
  | _, _ => inr "Nodes not found for connection"%string
  end.

Definition removeConnection (i : string) (state : Store) : Store :=
  {| project :=
       {| nodes := nodes (project state);
          connections :=
            List.filter (fun c => negb (String.eqb (connId c) i))
              (connections (project state)) |};
     isDirty := true |}.

Definition getNode (i : string) (state : Store) : option ElectricalNode :=
  List.find (fun n => String.eqb (id n) i) (nodes (project state)).

Definition getConnectionsForNode (nodeId : string) (state : Store)
    : list Connection :=
  List.filter
    (fun c => String.eqb (fromNodeId c) nodeId
              || String.eqb (toNodeId c) nodeId)
    (connections (project state)).

Definition getConnectedNodes (nodeId : string) (state : Store)
    : list ElectricalNode :=
  let connections := getConnectionsForNode nodeId state in
  let connectedIds : gset string :=
    fold_left
      (fun s c =>
         let s1 :=
           if negb (String.eqb (fromNodeId c) nodeId)
           then {[fromNodeId c]} ∪ s else s in
         if negb (String.eqb (toNodeId c) nodeId)
         then {[toNodeId c]} ∪ s1 else s1)
      connections ∅ in
  List.filter (fun n => bool_decide (id n ∈ connectedIds))
    (nodes (project state)).

End ProjectStore.

(** ** utils/calculations.ts: the calculations on the former model *)

Module Legacy.

(** [voltage: 12 | 24]. *)
Inductive DeviceVoltage : Type := D12 | D24.

Definition deviceVolts (v : DeviceVoltage) : Q :=
  match v with
  | D12 => 12
  | D24 => 24
  end.

Record Device : Type := {
  deviceId : string;
  deviceName : string;
  deviceVoltage : DeviceVoltage;
  devicePowerW : option Q;
  deviceCurrentA : option Q;
  deviceDailyHours : Q;
  deviceDutyCycle : Q
}.

(** [if (x)] on an optional number: set and not zero. *)
Definition truthy (x : option Q) : bool :=
  match x with
  | Some q => negb (Num.eqb q 0)
  | None => false
  end.

Definition deviceCurrent (device : Device) : Q :=
  if truthy (deviceCurrentA device) then default 0 (deviceCurrentA device)
  else if truthy (devicePowerW device)
       then default 0 (devicePowerW device) / deviceVolts (deviceVoltage device)
       else 0.

Definition deviceDailyAh (device : Device) : Q :=
  deviceCurrent device * deviceDailyHours device * deviceDutyCycle device.

Definition totalDailyAh (devices : list Device) : Q :=
  fold_left (fun sum d => sum + deviceDailyAh d) devices 0.

End Legacy.


(** ** Notions the statements below are phrased with *)

Module Examples.

Definition consumerNode (i : string) (v : Voltage)
    (powerW currentA : option Q) : ElectricalNode :=
  {| id := i; name := i; voltage := v;
     props := ConsumerProps powerW currentA 4 0.5 |}.

Definition batteryNode (i : string) (v : Voltage) (capacityAh : Q)
    (quantity : option Q) (cfg : field Configuration) : ElectricalNode :=
  {| id := i; name := i; voltage := v;
     props := BatteryProps capacityAh lead quantity cfg |}.

Definition solarNode (i : string) (v : Voltage) (maxPowerW : Q)
    : ElectricalNode :=
  {| id := i; name := i; voltage := v;
     props := SolarProps maxPowerW None None |}.


Definition busNode (i : string) (v : Voltage) : ElectricalNode :=
  {| id := i; name := i; voltage := v; props := BusProps 100 |}.

Definition cable (i a b : string) (section len : Q) : Connection :=
  {| connId := i; fromNodeId := a; toNodeId := b;
     sectionMm2 := section; lengthM := len |}.

End Examples.

(** The graph the connectivity statements are about: its vertices are the
    nodes of the array, named by their ids, and every connection joins its
    two endpoints in both directions. *)

Module Graph.

Import Validation.

Section Over.

Variable nodes : list ElectricalNode.
Variable connections : list Connection.

Definition isNode (a : string) : Prop :=
  exists n, In n nodes /\ id n = a.

Definition adjacent (a b : string) : Prop :=
  exists conn, In conn connections /\
    ((fromNodeId conn = a /\ toNodeId conn = b)
     \/ (toNodeId conn = a /\ fromNodeId conn = b)).

(** A chain of connections from [a] to [c]; every id a connection is
    followed from is the id of a node of the array. *)
Inductive chain : string -> string -> Prop :=
| chain_here (a : string) : chain a a
| chain_step (a b c : string) :
    isNode a -> adjacent a b -> chain b c -> chain a c.

(** Some node of a source type is reachable from [a]. *)
Definition sourceReachable (a : string) : Prop :=
  exists n, In n nodes /\ isSourceType (type n) = true /\ chain a (id n).

(** What the search itself follows. *)

(** [nodes.find(n => n.id === i)]. *)
Definition nodeAt (i : string) : option ElectricalNode :=
  List.find (fun n => String.eqb (id n) i) nodes.

Definition sourceAt (i : string) : Prop :=
  exists n, nodeAt i = Some n /\ isSourceType (type n) = true.

Definition expandable (i : string) : Prop :=
  exists n, nodeAt i = Some n /\ isSourceType (type n) = false.

(** The ids the search can put on its queue, starting from [a]. *)
Inductive searched : string -> string -> Prop :=
| searched_here (a : string) : searched a a
| searched_step (a b c : string) :
    expandable a -> adjacent a b -> searched b c -> searched a c.

(** Every id the queue can hold: the start and the endpoints. *)
Definition universe (start : string) : list string :=
  start :: flat_map (fun c => [fromNodeId c; toNodeId c]) connections.

Definition unvisited (visited : gset string) (ids : list string) : nat :=
  length (List.filter (fun x => negb (bool_decide (x ∈ visited))) ids).

End Over.

End Graph.

(** Notions of the further properties. *)

Module Invariants.

Import ProjectStore Legacy.

(** Every connection joins two nodes of the array. *)
Definition wellConnected
    (nodes : list ElectricalNode) (conns : list Connection) : Prop :=
  forall c, In c conns ->
    Graph.isNode nodes (fromNodeId c) /\ Graph.isNode nodes (toNodeId c).


(** The capacity a battery node weighs in the choice of the dominant
    chemistry: [capacityAh * (quantity ?? 1)]. *)
Definition batteryWeight (n : ElectricalNode) : Q :=
  match props n with
  | BatteryProps capacityAh _ quantity _ => capacityAh * default 1 quantity
  | _ => 0
  end.

Definition hasChemistry (c : BatteryChemistry) (n : ElectricalNode) : Prop :=
  match props n with
  | BatteryProps _ chemistry _ _ => chemistry = c
  | _ => True
  end.

(** The order of numbers that may be [Infinity]. *)
Definition xle (x y : Num.xnum) : Prop :=
  match x, y with
  | Num.Fin a, Num.Fin b => a <= b
  | _, Num.PInf => True
  | Num.PInf, Num.Fin _ => False
  end.

(** The consumer node with the fields of a device of the former model. *)
Definition consumerOf (d : Device) : ElectricalNode :=
  {| id := deviceId d;
     name := deviceName d;
     voltage := match deviceVoltage d with D12 => V12 | D24 => V24 end;
     props :=
       ConsumerProps (devicePowerW d) (deviceCurrentA d)
         (deviceDailyHours d) (deviceDutyCycle d) |}.

End Invariants.


(** Checks over the table of standard sections, and the selection of
    findings by kind. *)

Module Checks.

Import CableStandards.


(** Every rating lies between 3 A and 310 A. *)
Definition tableBounded : bool :=
  forallb
    (fun s => Num.leb 3 (maxCurrentA s) && Num.leb (maxCurrentA s) 310)
    cableStandards.

Definition isMismatch (e : ValidationError) : bool :=
  bool_decide (errType e = voltage_mismatch).

End Checks.

(** ** Comparisons and sums *)

Section NumFacts.

Lemma ltb_lt (a b : Q) : Num.ltb a b = true <-> a < b.
Proof.
  unfold Num.ltb. rewrite negb_true_iff.
  split.
  - intros H. apply Qnot_le_lt. intros Hle.
    apply Qle_bool_iff in Hle. congruence.
  - intros H. destruct (Qle_bool b a) eqn:E; [|reflexivity].
    apply Qle_bool_iff in E. lra.
Qed.

Lemma ltb_ge (a b : Q) : Num.ltb a b = false <-> b <= a.
Proof.
  unfold Num.ltb. rewrite negb_false_iff. apply Qle_bool_iff.
Qed.

Lemma leb_le (a b : Q) : Num.leb a b = true <-> a <= b.
Proof. apply Qle_bool_iff. Qed.

Lemma leb_gt (a b : Q) : Num.leb a b = false <-> b < a.
Proof.
  unfold Num.leb. split.
  - intros H. apply Qnot_le_lt. intros Hle.
    apply Qle_bool_iff in Hle. congruence.
  - intros H. destruct (Qle_bool a b) eqn:E; [|reflexivity].
    apply Qle_bool_iff in E. lra.
Qed.

Lemma gtb_gt (a b : Q) : Num.gtb a b = true <-> b < a.
Proof. apply ltb_lt. Qed.

Lemma gtb_le (a b : Q) : Num.gtb a b = false <-> a <= b.
Proof. apply ltb_ge. Qed.

Lemma geb_ge (a b : Q) : Num.geb a b = true <-> b <= a.
Proof. apply leb_le. Qed.

Lemma eqb_eq (a b : Q) : Num.eqb a b = true <-> a == b.
Proof. apply Qeq_bool_iff. Qed.


Lemma sumOf_from {A : Type} (g : A -> Q) (l : list A) (a : Q) :
  fold_left (fun sum n => sum + g n) l a == a + Power.sumOf g l.
Proof.
  unfold Power.sumOf. revert a.
  induction l as [|n l IH]; intros a; simpl.
  - lra.
  - rewrite (IH (a + g n)), (IH (0 + g n)). lra.
Qed.


Lemma sumOf_cons {A : Type} (g : A -> Q) (x : A) (l : list A) :
  Power.sumOf g (x :: l) == g x + Power.sumOf g l.
Proof.
  unfold Power.sumOf at 1. simpl. rewrite sumOf_from. lra.
Qed.


End NumFacts.

(** ** Power and energy *)

Section PowerProperties.

Import Power Examples.








(** A 120 W consumer at 12 V, 4 h a day at half duty: 10 A and 20 Ah. *)
Example consumer_current_and_daily_energy :
  let n := consumerNode "c" V12 (Some 120) None in
  getNodeCurrent n == 10 /\ getNodeDailyAh n == 20.
Proof. simpl. split; reflexivity. Qed.


End PowerProperties.

(** ** Battery sizing *)

Section BatteryProperties.

Import Power Battery Examples.





Example total_capacity_mixed_bank :
  getTotalBatteryCapacityAh
    [batteryNode "a" V12 100 (Some 3) (Present parallel);
     batteryNode "b" V12 80 (Some 4) (Present series);
     batteryNode "c" V12 50 (Some 2) Absent]
  == 480.
Proof. reflexivity. Qed.

End BatteryProperties.

(** ** Cable analysis *)

Section CableProperties.

Import CableStandards Power Cables FusePanel Examples Checks.

(** Facts read off the table. *)


Lemma table_bounds (s : CableSpec) :
  In s cableStandards -> 3 <= maxCurrentA s <= 310.
Proof.
  intros Hs.
  assert (H : tableBounded = true) by (vm_compute; reflexivity).
  unfold tableBounded in H. rewrite forallb_forall in H.
  specialize (H s Hs). apply andb_true_iff in H as [H1 H2].
  split; apply leb_le; assumption.
Qed.




Lemma maxCapacity_nonneg (x : Q) :
  0 <= default 0 (maxCurrentA <$> getCableSpecBySection x).
Proof.
  unfold getCableSpecBySection.
  destruct (List.find _ cableStandards) as [s|] eqn:E; simpl; [|lra].
  apply find_some in E as [Hin _]. apply table_bounds in Hin. lra.
Qed.





(** C8 (as the code has it).  [isCableOversized] is true exactly when
    the section exceeds 1.5 times the recommended section; the rule
    "current below 30 % of the rated capacity and section above 1.5 mm²"
    is the one the fuse recommendation panel classifies with. *)
Theorem oversized_rules (conn : Connection) (currentA voltage : Q) :
  (isCableOversized conn currentA voltage = true
   <-> getRecommendedSection currentA (lengthM conn) voltage
         MAX_VOLTAGE_DROP_PERCENT * 1.5 < sectionMm2 conn)
  /\ (fuseInfoStatus conn currentA = fi_oversized
      <-> currentA
          < default 0 (maxCurrentA <$> getCableSpecBySection (sectionMm2 conn))
            * 0.3
          /\ 1.5 < sectionMm2 conn).
Proof.
  split.
  - unfold isCableOversized. apply gtb_gt.
  - unfold fuseInfoStatus. cbv zeta.
    pose proof (maxCapacity_nonneg (sectionMm2 conn)) as Hcap.
    set (cap := default 0 _) in *.
    destruct (Num.gtb currentA (cap * 0.8)) eqn:Ew.
    + apply gtb_gt in Ew. split; [discriminate|]. intros [H _]. lra.
    + destruct (Num.ltb currentA (cap * 0.3)) eqn:E1;
        destruct (Num.gtb (sectionMm2 conn) 1.5) eqn:E2; simpl.
      * apply ltb_lt in E1. apply gtb_gt in E2. tauto.
      * apply gtb_le in E2. split; [discriminate|]. intros [_ H]. lra.
      * apply ltb_ge in E1. split; [discriminate|]. intros [H _]. lra.
      * apply ltb_ge in E1. split; [discriminate|]. intros [H _]. lra.
Qed.

(** C8 fails on [isCableOversized]: a 2.5 mm² cable of 10 m carrying 5 A
    at 12 V carries less than 30 % of its 20 A rating and is larger than
    1.5 mm², yet the function returns false (6 mm² is recommended). *)
Lemma oversized_thirty_percent_counterexample :
  let conn := cable "k" "c" "b" 2.5 10 in
  maxCurrentA <$> getCableSpecBySection (sectionMm2 conn) = Some 20
  /\ 5 < 20 * 0.3
  /\ 1.5 < sectionMm2 conn
  /\ getRecommendedSection 5 10 12 MAX_VOLTAGE_DROP_PERCENT == 6
  /\ isCableOversized conn 5 12 = false.
Proof.
  simpl. repeat split; reflexivity.
Qed.

(** The current of a connection with a consumer endpoint is that
    consumer's current, the [from] endpoint first. *)
Lemma cableCurrent_consumer (fromNode toNode : ElectricalNode) :
  (type fromNode = consumer ->
   cableCurrent fromNode toNode = getNodeCurrent fromNode)
  /\ (type fromNode <> consumer -> type toNode = consumer ->
      cableCurrent fromNode toNode = getNodeCurrent toNode).
Proof.
  unfold cableCurrent, isType. split.
  - intros H. rewrite bool_decide_eq_true_2 by exact H. reflexivity.
  - intros H1 H2. rewrite bool_decide_eq_false_2 by exact H1.
    rewrite bool_decide_eq_true_2 by exact H2. reflexivity.
Qed.

(** Without a consumer endpoint only a battery at the [from] end gives a
    current; any other [from] node gives 0. *)
Lemma cableCurrent_no_consumer (fromNode toNode : ElectricalNode) :
  type fromNode <> consumer -> type toNode <> consumer ->
  cableCurrent fromNode toNode
  = match props fromNode with
    | BatteryProps capacityAh _ _ _ => capacityAh / 5
    | _ => 0
    end.
Proof.
  intros H1 H2. unfold cableCurrent, isType.
  rewrite !bool_decide_eq_false_2 by assumption. reflexivity.
Qed.

(** C3, at the input where the code departs from it: a solar panel wired
    to a 100 Ah battery, the battery at the [to] end.  The claim gives
    100 / 5 = 20 A; [analyzeCable] works with 0 A.  With the two ends
    swapped it works with 20 A. *)
Theorem cable_current_battery_at_to_end :
  let s := solarNode "s" V12 200 in
  let b := batteryNode "b" V12 100 None Absent in
  let conn := cable "k" "s" "b" 6 2 in
  type s <> consumer /\ type b = battery
  /\ cableCurrent s b == 0
  /\ currentA (analyzeCable conn s b) == 0
  /\ cableCurrent b s == 20
  /\ currentA (analyzeCable (cable "k" "b" "s" 6 2) b s) == 20.
Proof.
  simpl. repeat split; try reflexivity. discriminate.
Qed.


(** 10 A over 5 m of 2.5 mm² at 12 V: 0.7 V, 5.83 %, status warning. *)
Example cable_drop_warning :
  let a :=
    analyzeCable (cable "k" "c" "b" 2.5 5)
      (consumerNode "c" V12 (Some 120) None)
      (batteryNode "b" V12 100 None Absent) in
  currentA a == 10 /\ voltageDrop a == 0.7
  /\ voltageDropPercent a == 5.83 /\ status a = st_warning
  /\ recommendedSectionMm2 a == 6.
Proof. simpl. repeat split; reflexivity. Qed.


End CableProperties.

(** ** Circuit validation *)

Section ValidationProperties.

Import CableStandards Power Battery Cables Validation Examples Checks.

(** *** The node map *)

Lemma nodeMap_from_lookup (nodes : list ElectricalNode)
    (m : gmap string ElectricalNode) (i : string) (n : ElectricalNode) :
  fold_left (fun m n => <[id n := n]> m) nodes m !! i = Some n ->
  (In n nodes /\ id n = i) \/ m !! i = Some n.
Proof.
  revert m. induction nodes as [|x nodes IH]; intros m H; simpl in *.
  - right. exact H.
  - destruct (IH _ H) as [[Hin Hid]|Hm].
    + left. split; [right; exact Hin|exact Hid].
    + destruct (decide (id x = i)) as [Heq|Hne].
      * rewrite <- Heq, lookup_insert_eq in Hm.
        injection Hm as ->. left. split; [left; reflexivity|exact Heq].
      * rewrite lookup_insert_ne in Hm by exact Hne. right. exact Hm.
Qed.

Lemma buildNodeMap_Some (nodes : list ElectricalNode) (i : string)
    (n : ElectricalNode) :
  buildNodeMap nodes !! i = Some n -> In n nodes /\ id n = i.
Proof.
  intros H. apply nodeMap_from_lookup in H as [H|H]; [exact H|].
  rewrite lookup_empty in H. discriminate.
Qed.

Lemma buildNodeMap_None (nodes : list ElectricalNode) (i : string) :
  (forall n, In n nodes -> id n <> i) -> buildNodeMap nodes !! i = None.
Proof.
  intros Hno. destruct (buildNodeMap nodes !! i) as [n|] eqn:E;
    [|reflexivity].
  apply buildNodeMap_Some in E as [Hin Hid]. destruct (Hno n Hin Hid).
Qed.

Lemma nodeMap_from_other (nodes : list ElectricalNode)
    (m : gmap string ElectricalNode) (i : string) :
  (forall n, In n nodes -> id n <> i) ->
  fold_left (fun m n => <[id n := n]> m) nodes m !! i = m !! i.
Proof.
  revert m. induction nodes as [|x nodes IH]; intros m Hno; simpl;
    [reflexivity|].
  rewrite IH by (intros n Hn; apply Hno; right; exact Hn).
  apply lookup_insert_ne. apply Hno. left. reflexivity.
Qed.

(** With ids that name one node each, the map holds every node of the
    array under its id. *)
Lemma buildNodeMap_unique (nodes : list ElectricalNode) (n : ElectricalNode) :
  NoDup (map id nodes) -> In n nodes -> buildNodeMap nodes !! id n = Some n.
Proof.
  unfold buildNodeMap. generalize (∅ : gmap string ElectricalNode).
  induction nodes as [|x nodes IH]; intros m Hnd Hin; [destruct Hin|].
  simpl in *. inversion Hnd as [|? ? Hx Hl]; subst.
  destruct Hin as [->|Hin]; [|apply IH; assumption].
  rewrite nodeMap_from_other; [apply lookup_insert_eq|].
  intros y Hy Heq. apply Hx. rewrite <- Heq.
  apply list_elem_of_In, in_map, Hy.
Qed.

Lemma buildNodeMap_pair (a b : ElectricalNode) :
  id a <> id b ->
  buildNodeMap [a; b] !! id a = Some a /\ buildNodeMap [a; b] !! id b = Some b.
Proof.
  intros Hne. unfold buildNodeMap. simpl. split.
  - rewrite lookup_insert_ne by congruence. apply lookup_insert_eq.
  - apply lookup_insert_eq.
Qed.

(** *** Findings by kind *)

Lemma checkVoltageMismatch_types (nodes : list ElectricalNode)
    (conns : list Connection) (e : ValidationError) :
  In e (checkVoltageMismatch nodes conns) -> errType e = voltage_mismatch.
Proof.
  unfold checkVoltageMismatch. rewrite in_flat_map.
  intros (conn & _ & He).
  destruct (buildNodeMap nodes !! fromNodeId conn) as [f|]; [|destruct He].
  destruct (buildNodeMap nodes !! toNodeId conn) as [t|]; [|destruct He].
  destruct (bool_decide _); [|destruct He].
  destruct He as [<-|[]]. reflexivity.
Qed.

Lemma overcurrentErrors_types (l : list CableAnalysis) (e : ValidationError) :
  In e (overcurrentErrors l) -> errType e = overcurrent.
Proof.
  unfold overcurrentErrors. rewrite in_flat_map.
  intros (a & _ & He). destruct (bool_decide _); [|destruct He].
  destruct He as [<-|[]]. reflexivity.
Qed.

Lemma overcurrentErrors_nil (l : list CableAnalysis) :
  overcurrentErrors l = [] <-> forall a, In a l -> status a <> st_overload.
Proof.
  unfold overcurrentErrors. induction l as [|a l IH]; simpl.
  - split; [intros _ x []|reflexivity].
  - destruct (bool_decide (status a = st_overload)) eqn:E.
    + apply bool_decide_eq_true in E. split; [discriminate|].
      intros H. destruct (H a (or_introl eq_refl) E).
    + apply bool_decide_eq_false in E. simpl. rewrite IH. split.
      * intros H x [<-|Hx]; [exact E|apply H, Hx].
      * intros H x Hx. apply H. right. exact Hx.
Qed.

Lemma filter_none {A : Type} (p : A -> bool) (l : list A) :
  (forall x, In x l -> p x = false) -> List.filter p l = [].
Proof.
  intros H. induction l as [|x l IH]; simpl; [reflexivity|].
  rewrite (H x (or_introl eq_refl)). apply IH.
  intros y Hy. apply H. right. exact Hy.
Qed.

Lemma filter_all {A : Type} (p : A -> bool) (l : list A) :
  (forall x, In x l -> p x = true) -> List.filter p l = l.
Proof.
  intros H. induction l as [|x l IH]; simpl; [reflexivity|].
  rewrite (H x (or_introl eq_refl)). f_equal. apply IH.
  intros y Hy. apply H. right. exact Hy.
Qed.

(** The voltage mismatch errors of a validation are those of
    [checkVoltageMismatch], in order. *)
Lemma mismatch_errors_of_validation (nodes : list ElectricalNode)
    (conns : list Connection) :
  List.filter isMismatch (errors (validateCircuit nodes conns))
  = checkVoltageMismatch nodes conns.
Proof.
  unfold validateCircuit. simpl. rewrite !List.filter_app.
  rewrite (filter_all isMismatch (checkVoltageMismatch nodes conns)).
  2:{ intros e He. unfold isMismatch. apply bool_decide_eq_true.
      eapply checkVoltageMismatch_types, He. }
  rewrite (filter_none isMismatch (overcurrentErrors _)).
  2:{ intros e He. unfold isMismatch. apply bool_decide_eq_false.
      rewrite (overcurrentErrors_types _ _ He). discriminate. }
  destruct (existsb (isType battery) nodes); simpl;
    rewrite app_nil_r; reflexivity.
Qed.

Lemma isValid_iff (nodes : list ElectricalNode) (conns : list Connection) :
  isValid (validateCircuit nodes conns) = true
  <-> errors (validateCircuit nodes conns) = [].
Proof.
  unfold validateCircuit. simpl.
  destruct (_ ++ _ ++ _) as [|e l]; simpl; split; congruence.
Qed.

Lemma noSource_nil_iff (nodes : list ElectricalNode)
    (conns : list Connection) :
  errors (validateCircuit nodes conns) = []
  <-> existsb (isType battery) nodes = true
      /\ checkVoltageMismatch nodes conns = []
      /\ overcurrentErrors (analyzeAllCables conns nodes) = [].
Proof.
  unfold validateCircuit. simpl.
  destruct (existsb (isType battery) nodes); simpl.
  - split.
    + intros H. apply app_eq_nil in H as [H1 H2]. auto.
    + intros (_ & -> & ->). reflexivity.
  - split; [discriminate|]. intros (H & _). discriminate.
Qed.

(** C10.  [isValid] is true exactly when the error list is empty, that
    is when there is a battery, no voltage mismatch and no overloaded
    cable; the error list holds nothing but these three kinds, so no
    warning has a part in [isValid]. *)
Theorem valid_iff_no_error (nodes : list ElectricalNode)
    (conns : list Connection) :
  (isValid (validateCircuit nodes conns) = true
   <-> errors (validateCircuit nodes conns) = [])
  /\ (isValid (validateCircuit nodes conns) = true
      <-> existsb (isType battery) nodes = true
          /\ checkVoltageMismatch nodes conns = []
          /\ forall a, In a (analyzeAllCables conns nodes) ->
                       status a <> st_overload)
  /\ (forall e, In e (errors (validateCircuit nodes conns)) ->
        errType e = no_source \/ errType e = voltage_mismatch
        \/ errType e = overcurrent).
Proof.
  split; [apply isValid_iff|]. split.
  - rewrite isValid_iff, noSource_nil_iff, overcurrentErrors_nil.
    reflexivity.
  - intros e. unfold validateCircuit. simpl. rewrite !in_app_iff.
    intros [H|[H|H]].
    + destruct (existsb (isType battery) nodes); simpl in H; [destruct H|].
      destruct H as [<-|[]]. left. reflexivity.
    + right. left. eapply checkVoltageMismatch_types, H.
    + right. right. eapply overcurrentErrors_types, H.
Qed.

Lemma valid_iff_no_error_witness :
  let nodes := [batteryNode "b" V12 100 None Absent] in
  isValid (validateCircuit nodes []) = true
  /\ warnings (validateCircuit nodes []) <> [].
Proof.
  intros nodes. split.
  - apply (proj1 (valid_iff_no_error nodes [])). reflexivity.
  - vm_compute. discriminate.
Defined.

(** C1.  A connection whose two endpoint nodes exist with different
    voltages gets a [voltage_mismatch] error carrying both node ids and
    the connection id, and the circuit is not valid.  For a 12 V battery,
    a 24 V consumer and one connection between them, that error is the
    only [voltage_mismatch] error. *)
Theorem voltage_mismatch_reported :
  (forall (nodes : list ElectricalNode) (conns : list Connection)
          (conn : Connection) (fromNode toNode : ElectricalNode),
      In conn conns ->
      buildNodeMap nodes !! fromNodeId conn = Some fromNode ->
      buildNodeMap nodes !! toNodeId conn = Some toNode ->
      voltage fromNode <> voltage toNode ->
      exists e,
        In e (errors (validateCircuit nodes conns))
        /\ errType e = voltage_mismatch
        /\ errNodeIds e = Some [fromNodeId conn; toNodeId conn]
        /\ errConnectionId e = Some (connId conn)
        /\ isValid (validateCircuit nodes conns) = false)
  /\ (forall (b c : ElectricalNode) (conn : Connection)
             (nodes : list ElectricalNode),
        type b = battery -> voltage b = V12 ->
        type c = consumer -> voltage c = V24 ->
        id b <> id c ->
        nodes = [b; c] \/ nodes = [c; b] ->
        (fromNodeId conn = id b /\ toNodeId conn = id c)
        \/ (fromNodeId conn = id c /\ toNodeId conn = id b) ->
        exists e,
          List.filter isMismatch (errors (validateCircuit nodes [conn])) = [e]
          /\ errType e = voltage_mismatch
          /\ errNodeIds e = Some [fromNodeId conn; toNodeId conn]
          /\ errConnectionId e = Some (connId conn)
          /\ isValid (validateCircuit nodes [conn]) = false).
Proof.
  split.
  - intros nodes conns conn f t Hin Hf Ht Hv.
    exists (voltageMismatchError conn f t).
    apply buildNodeMap_Some in Hf as Hf'. destruct Hf' as [_ Hidf].
    apply buildNodeMap_Some in Ht as Ht'. destruct Ht' as [_ Hidt].
    assert (He : In (voltageMismatchError conn f t)
                   (errors (validateCircuit nodes conns))).
    { unfold validateCircuit. simpl. rewrite !in_app_iff. right. left.
      unfold checkVoltageMismatch. apply in_flat_map.
      exists conn. split; [exact Hin|]. rewrite Hf, Ht.
      rewrite bool_decide_eq_true_2 by exact Hv. left. reflexivity. }
    assert (Hinv : isValid (validateCircuit nodes conns) = false).
    { destruct (isValid (validateCircuit nodes conns)) eqn:E;
        [|reflexivity].
      apply isValid_iff in E. rewrite E in He. destruct He. }
    split; [exact He|]. simpl errType. simpl errNodeIds.
    simpl errConnectionId. rewrite Hidf, Hidt. auto.
  - intros b c conn nodes Hb Hvb Hc Hvc Hid Hnodes Hconn.
    assert (Hmap : buildNodeMap nodes !! id b = Some b
                   /\ buildNodeMap nodes !! id c = Some c).
    { destruct Hnodes as [-> | ->].
      - apply buildNodeMap_pair. exact Hid.
      - apply and_comm. apply buildNodeMap_pair. congruence. }
    destruct Hmap as [Hmb Hmc].
    assert (Hcheck : exists e,
               checkVoltageMismatch nodes [conn] = [e]
               /\ errType e = voltage_mismatch
               /\ errNodeIds e = Some [fromNodeId conn; toNodeId conn]
               /\ errConnectionId e = Some (connId conn)).
    { unfold checkVoltageMismatch. simpl.
      destruct Hconn as [[Hf Ht]|[Hf Ht]]; rewrite Hf, Ht, Hmb, Hmc.
      - rewrite bool_decide_eq_true_2 by congruence.
        eexists. split; [reflexivity|]. simpl. auto.
      - rewrite bool_decide_eq_true_2 by congruence.
        eexists. split; [reflexivity|]. simpl. auto. }
    destruct Hcheck as (e & Hcheck & Hty & Hids & Hcid).
    exists e. rewrite mismatch_errors_of_validation.
    repeat (split; [assumption|]).
    destruct (isValid (validateCircuit nodes [conn])) eqn:E;
      [|reflexivity].
    apply isValid_iff, noSource_nil_iff in E as (_ & E & _).
    congruence.
Qed.

Lemma voltage_mismatch_reported_witness :
  let b := batteryNode "b" V12 100 None Absent in
  let c := consumerNode "c" V24 (Some 120) None in
  let conn := cable "k" "b" "c" 2.5 5 in
  (exists e,
      In e (errors (validateCircuit [b; c] [conn]))
      /\ errType e = voltage_mismatch
      /\ errNodeIds e = Some ["b"; "c"]
      /\ errConnectionId e = Some "k"
      /\ isValid (validateCircuit [b; c] [conn]) = false)
  /\ (exists e,
        List.filter isMismatch (errors (validateCircuit [b; c] [conn])) = [e]
        /\ errType e = voltage_mismatch
        /\ errNodeIds e = Some ["b"; "c"]
        /\ errConnectionId e = Some "k"
        /\ isValid (validateCircuit [b; c] [conn]) = false).
Proof.
  intros b c conn. split.
  - apply (proj1 voltage_mismatch_reported [b; c] [conn] conn b c).
    + left. reflexivity.
    + vm_compute. reflexivity.
    + vm_compute. reflexivity.
    + discriminate.
  - apply (proj2 voltage_mismatch_reported b c conn [b; c]);
      try reflexivity.
    + discriminate.
    + left. reflexivity.
    + left. split; reflexivity.
Defined.

Lemma analyzeAllCables_app (l1 l2 : list Connection)
    (nodes : list ElectricalNode) :
  analyzeAllCables (l1 ++ l2) nodes
  = analyzeAllCables l1 nodes ++ analyzeAllCables l2 nodes.
Proof. unfold analyzeAllCables. apply map_app. Qed.

Lemma checkVoltageMismatch_app (nodes : list ElectricalNode)
    (l1 l2 : list Connection) :
  checkVoltageMismatch nodes (l1 ++ l2)
  = checkVoltageMismatch nodes l1 ++ checkVoltageMismatch nodes l2.
Proof. unfold checkVoltageMismatch. apply flat_map_app. Qed.

Lemma overcurrentErrors_app (l1 l2 : list CableAnalysis) :
  overcurrentErrors (l1 ++ l2) = overcurrentErrors l1 ++ overcurrentErrors l2.
Proof. unfold overcurrentErrors. apply flat_map_app. Qed.

(** C9.  A connection with an endpoint id that no node has gets the
    zero-valued analysis row while the other connections are analysed as
    before; the voltage check passes over it, and the errors and the
    validity of the circuit are those of the circuit without it.  Both
    functions are total: each lookup that can miss is handled. *)
Theorem dangling_connection_degrades
    (nodes : list ElectricalNode) (l1 l2 : list Connection)
    (conn : Connection) :
  (forall n, In n nodes -> id n <> fromNodeId conn)
  \/ (forall n, In n nodes -> id n <> toNodeId conn) ->
  (exists row,
      analyzeAllCables (l1 ++ conn :: l2) nodes
      = analyzeAllCables l1 nodes ++ row :: analyzeAllCables l2 nodes
      /\ connectionId row = connId conn
      /\ currentA row = 0 /\ voltageDrop row = 0
      /\ voltageDropPercent row = 0 /\ powerLossW row = 0
      /\ status row = st_ok)
  /\ checkVoltageMismatch nodes (l1 ++ conn :: l2)
     = checkVoltageMismatch nodes (l1 ++ l2)
  /\ errors (validateCircuit nodes (l1 ++ conn :: l2))
     = errors (validateCircuit nodes (l1 ++ l2))
  /\ isValid (validateCircuit nodes (l1 ++ conn :: l2))
     = isValid (validateCircuit nodes (l1 ++ l2)).
Proof.
  intros Hmiss.
  assert (Hrow : analyzeAllCables [conn] nodes = [emptyAnalysis conn]).
  { unfold analyzeAllCables. simpl.
    destruct Hmiss as [H|H]; rewrite (buildNodeMap_None _ _ H);
      [reflexivity|].
    destruct (buildNodeMap nodes !! fromNodeId conn); reflexivity. }
  assert (Hchk : checkVoltageMismatch nodes [conn] = []).
  { unfold checkVoltageMismatch. simpl.
    destruct Hmiss as [H|H]; rewrite (buildNodeMap_None _ _ H);
      [reflexivity|].
    destruct (buildNodeMap nodes !! fromNodeId conn); reflexivity. }
  assert (Hall : analyzeAllCables (l1 ++ conn :: l2) nodes
                 = analyzeAllCables l1 nodes
                   ++ emptyAnalysis conn :: analyzeAllCables l2 nodes).
  { change (conn :: l2) with ([conn] ++ l2).
    rewrite !analyzeAllCables_app, Hrow. reflexivity. }
  assert (Hvm : checkVoltageMismatch nodes (l1 ++ conn :: l2)
                = checkVoltageMismatch nodes (l1 ++ l2)).
  { change (conn :: l2) with ([conn] ++ l2).
    rewrite !checkVoltageMismatch_app, Hchk. reflexivity. }
  assert (Herr : errors (validateCircuit nodes (l1 ++ conn :: l2))
                 = errors (validateCircuit nodes (l1 ++ l2))).
  { unfold validateCircuit. simpl. rewrite Hvm, Hall.
    rewrite analyzeAllCables_app.
    change (emptyAnalysis conn :: analyzeAllCables l2 nodes)
      with ([emptyAnalysis conn] ++ analyzeAllCables l2 nodes).
    rewrite !overcurrentErrors_app. reflexivity. }
  split.
  - exists (emptyAnalysis conn). rewrite Hall. simpl. auto 10.
  - split; [exact Hvm|]. split; [exact Herr|].
    unfold validateCircuit in *. simpl in *. rewrite Herr. reflexivity.
Qed.

Lemma dangling_connection_degrades_witness :
  let nodes := [batteryNode "b" V12 100 None Absent] in
  let conn := cable "k" "b" "ghost" 2.5 5 in
  errors (validateCircuit nodes ([] ++ conn :: []))
  = errors (validateCircuit nodes ([] ++ [])).
Proof.
  intros nodes conn.
  apply (dangling_connection_degrades nodes [] [] conn).
  right. intros n [<-|[]]. discriminate.
Defined.


End ValidationProperties.

(** ** Connectivity *)

Section ConnectivityProperties.

Import Validation Graph Examples.

Variable nodes : list ElectricalNode.
Variable connections : list Connection.

Lemma searched_snoc (a b c : string) :
  searched nodes connections a b -> expandable nodes b -> adjacent connections b c -> searched nodes connections a c.
Proof.
  intros H. induction H as [a|a b' c' Ha Hab Hb IH]; intros He Hadj.
  - eapply searched_step; [exact He|exact Hadj|apply searched_here].
  - eapply searched_step; [exact Ha|exact Hab|]. apply IH; assumption.
Qed.

(** *** What one expansion pushes *)

Lemma pushNeighbours_adjacent (cur : string) (visited : gset string)
    (w : string) :
  In w (pushNeighbours cur visited connections) -> adjacent connections cur w.
Proof.
  unfold pushNeighbours. rewrite in_flat_map. intros (conn & Hin & Hw).
  exists conn. split; [exact Hin|].
  apply in_app_or in Hw as [Hw|Hw].
  - destruct (bool_decide (fromNodeId conn = cur)) eqn:E; simpl in Hw;
      [|destruct Hw].
    apply bool_decide_eq_true in E.
    destruct (negb _); [|destruct Hw]. destruct Hw as [<-|[]].
    left. auto.
  - destruct (bool_decide (toNodeId conn = cur)) eqn:E; simpl in Hw;
      [|destruct Hw].
    apply bool_decide_eq_true in E.
    destruct (negb _); [|destruct Hw]. destruct Hw as [<-|[]].
    right. auto.
Qed.

Lemma pushNeighbours_complete (cur : string) (visited : gset string)
    (w : string) :
  adjacent connections cur w -> w ∈ visited \/ In w (pushNeighbours cur visited connections).
Proof.
  intros (conn & Hin & Hends).
  destruct (decide (w ∈ visited)) as [Hv|Hv]; [left; exact Hv|right].
  unfold pushNeighbours. apply in_flat_map. exists conn.
  split; [exact Hin|]. apply in_or_app.
  destruct Hends as [[Hf Ht]|[Ht Hf]].
  - left. rewrite (bool_decide_eq_true_2 _ Hf). rewrite Ht.
    rewrite (bool_decide_eq_false_2 _ Hv). left. reflexivity.
  - right. rewrite (bool_decide_eq_true_2 _ Ht). rewrite Hf.
    rewrite (bool_decide_eq_false_2 _ Hv). left. reflexivity.
Qed.

Lemma pushNeighbours_length (cur : string) (visited : gset string) :
  (length (pushNeighbours cur visited connections)
   <= 2 * length connections)%nat.
Proof.
  unfold pushNeighbours.
  induction connections as [|conn l IH]; simpl; [lia|].
  rewrite !length_app.
  destruct (_ && _); destruct (_ && _); simpl; lia.
Qed.

Lemma pushNeighbours_universe (start cur : string) (visited : gset string)
    (w : string) :
  In w (pushNeighbours cur visited connections) ->
  In w (universe connections start).
Proof.
  intros H. apply pushNeighbours_adjacent in H as (conn & Hin & Hends).
  right. apply in_flat_map. exists conn. split; [exact Hin|].
  simpl. destruct Hends as [[_ <-]|[_ <-]]; auto.
Qed.

(** *** The search ends within its fuel *)

Lemma unvisited_le (visited : gset string) (x : string) (ids : list string) :
  (unvisited ({[x]} ∪ visited) ids <= unvisited visited ids)%nat.
Proof.
  unfold unvisited. induction ids as [|y ids IH]; simpl; [lia|].
  destruct (decide (y ∈ visited)) as [Hy|Hy].
  - rewrite (bool_decide_eq_true_2 (y ∈ visited) Hy).
    rewrite (bool_decide_eq_true_2 (y ∈ {[x]} ∪ visited))
      by set_solver.
    simpl. exact IH.
  - rewrite (bool_decide_eq_false_2 (y ∈ visited) Hy). simpl.
    destruct (bool_decide (y ∈ {[x]} ∪ visited)); simpl; lia.
Qed.

Lemma unvisited_lt (visited : gset string) (x : string) (ids : list string) :
  In x ids -> x ∉ visited ->
  (unvisited ({[x]} ∪ visited) ids < unvisited visited ids)%nat.
Proof.
  intros Hin Hx. induction ids as [|y ids IH]; [destruct Hin|].
  pose proof (unvisited_le visited x ids) as Hle.
  unfold unvisited in *. simpl.
  destruct Hin as [->|Hin].
  - rewrite (bool_decide_eq_false_2 (x ∈ visited) Hx).
    rewrite (bool_decide_eq_true_2 (x ∈ {[x]} ∪ visited))
      by set_solver.
    simpl. lia.
  - specialize (IH Hin).
    destruct (decide (y ∈ visited)) as [Hy|Hy].
    + rewrite (bool_decide_eq_true_2 (y ∈ visited) Hy).
      rewrite (bool_decide_eq_true_2 (y ∈ {[x]} ∪ visited))
        by set_solver.
      simpl. exact IH.
    + rewrite (bool_decide_eq_false_2 (y ∈ visited) Hy). simpl.
      destruct (bool_decide (y ∈ {[x]} ∪ visited)); simpl; lia.
Qed.

Lemma unvisited_bound (visited : gset string) (ids : list string) :
  (unvisited visited ids <= length ids)%nat.
Proof. unfold unvisited. apply List.filter_length_le. Qed.

Lemma search_terminates (start : string) (fuel : nat) :
  forall (visited : gset string) (queue : list string),
    (forall q, In q queue -> In q (universe connections start)) ->
    (length queue
     + 2 * length connections
       * unvisited visited (universe connections start) < fuel)%nat ->
    is_Some (searchSource fuel nodes connections visited queue).
Proof.
  induction fuel as [|fuel IH]; intros visited queue Hq Hlt; [lia|].
  destruct queue as [|cur rest]; simpl; [eexists; reflexivity|].
  simpl in Hlt.
  assert (Hrest : forall q, In q rest -> In q (universe connections start))
    by (intros q Hin; apply Hq; right; exact Hin).
  destruct (bool_decide (cur ∈ visited)) eqn:Ev.
  - apply IH; [exact Hrest|lia].
  - apply bool_decide_eq_false in Ev.
    pose proof (unvisited_lt visited cur (universe connections start)
                  (Hq cur (or_introl eq_refl)) Ev) as Hdec.
    destruct (List.find _ nodes) as [n|]; [|apply IH; [exact Hrest|nia]].
    destruct (isSourceType (type n)); [eexists; reflexivity|].
    apply IH.
    + intros q Hin. apply in_app_or in Hin as [Hin|Hin];
        [apply Hrest, Hin|].
      eapply pushNeighbours_universe, Hin.
    + rewrite length_app.
      pose proof (pushNeighbours_length cur ({[cur]} ∪ visited)) as Hp.
      nia.
Qed.

Lemma search_from_start (start : string) :
  is_Some (searchSource (searchFuel connections) nodes connections ∅ [start]).
Proof.
  apply (search_terminates start).
  - intros q [<-|[]]. left. reflexivity.
  - pose proof (unvisited_bound ∅ (universe connections start)) as Hb.
    unfold universe in Hb at 2. simpl in Hb.
    assert (Hlen : length (flat_map (fun c => [fromNodeId c; toNodeId c])
                             connections)
                   = (2 * length connections)%nat).
    { clear. induction connections as [|c l IH]; simpl; lia. }
    rewrite Hlen in Hb. unfold searchFuel. simpl length. nia.
Qed.

(** *** A positive answer comes from a source the search reached *)

Lemma search_true_sound (start : string) (fuel : nat) :
  forall (visited : gset string) (queue : list string),
    (forall q, In q queue -> searched nodes connections start q) ->
    searchSource fuel nodes connections visited queue = Some true ->
    exists s, searched nodes connections start s /\ sourceAt nodes s.
Proof.
  induction fuel as [|fuel IH]; intros visited queue Hq H; simpl in H;
    [discriminate|].
  destruct queue as [|cur rest]; [discriminate|].
  assert (Hcur : searched nodes connections start cur)
    by (apply Hq; left; reflexivity).
  assert (Hrest : forall q, In q rest -> searched nodes connections start q)
    by (intros q Hin; apply Hq; right; exact Hin).
  destruct (bool_decide (cur ∈ visited)); [eapply IH; eassumption|].
  destruct (List.find _ nodes) as [n|] eqn:En; [|eapply IH; eassumption].
  destruct (isSourceType (type n)) eqn:Es.
  - exists cur. split; [exact Hcur|]. exists n. split; assumption.
  - eapply IH; [|exact H]. intros q Hin.
    apply in_app_or in Hin as [Hin|Hin]; [apply Hrest, Hin|].
    eapply searched_snoc; [exact Hcur| |].
    + exists n. split; assumption.
    + eapply pushNeighbours_adjacent, Hin.
Qed.

(** *** A negative answer leaves a closed set without a source *)

Lemma search_false_closed (fuel : nat) :
  forall (visited : gset string) (queue : list string),
    (forall v, v ∈ visited -> ~ sourceAt nodes v) ->
    (forall v w, v ∈ visited -> expandable nodes v ->
                 adjacent connections v w -> w ∈ visited \/ In w queue) ->
    searchSource fuel nodes connections visited queue = Some false ->
    exists closed : gset string,
      visited ⊆ closed
      /\ (forall q, In q queue -> q ∈ closed)
      /\ (forall v, v ∈ closed -> ~ sourceAt nodes v)
      /\ (forall v w, v ∈ closed -> expandable nodes v ->
                      adjacent connections v w -> w ∈ closed).
Proof.
  induction fuel as [|fuel IH]; intros visited queue Hns Hcl H; simpl in H;
    [discriminate|].
  destruct queue as [|cur rest].
  - exists visited. split; [reflexivity|]. split; [intros q []|].
    split; [exact Hns|]. intros v w Hv He Ha.
    destruct (Hcl v w Hv He Ha) as [Hw|[]]. exact Hw.
  - destruct (bool_decide (cur ∈ visited)) eqn:Ev.
    + apply bool_decide_eq_true in Ev.
      destruct (IH visited rest Hns) as (closed & Hsub & Hq & Hc1 & Hc2);
        [|exact H|].
      * intros v w Hv He Ha.
        destruct (Hcl v w Hv He Ha) as [Hw|[<-|Hw]]; auto.
      * exists closed. split; [exact Hsub|]. split; [|auto].
        intros q [<-|Hin]; [apply Hsub, Ev|apply Hq, Hin].
    + apply bool_decide_eq_false in Ev.
      destruct (List.find _ nodes) as [n|] eqn:En.
      * destruct (isSourceType (type n)) eqn:Es; [discriminate|].
        destruct (IH ({[cur]} ∪ visited)
                    (rest ++ pushNeighbours cur ({[cur]} ∪ visited)
                               connections))
          as (closed & Hsub & Hq & Hc1 & Hc2); [| |exact H|].
        -- intros v Hv (m & Hm & Hsrc).
           apply elem_of_union in Hv as [Hv|Hv].
           ++ apply elem_of_singleton in Hv as ->.
              unfold nodeAt in Hm. congruence.
           ++ apply (Hns v Hv). exists m. split; assumption.
        -- intros v w Hv He Ha.
           apply elem_of_union in Hv as [Hv|Hv].
           ++ apply elem_of_singleton in Hv as ->.
              destruct (pushNeighbours_complete cur ({[cur]} ∪ visited)
                          w Ha) as [Hw|Hw]; [left; exact Hw|].
              right. apply in_or_app. right. exact Hw.
           ++ destruct (Hcl v w Hv He Ha) as [Hw|[<-|Hw]].
              ** left. set_solver.
              ** left. set_solver.
              ** right. apply in_or_app. left. exact Hw.
        -- exists closed. split; [set_solver|]. split; [|auto].
           intros q [<-|Hin]; [set_solver|].
           apply Hq, in_or_app. left. exact Hin.
      * destruct (IH ({[cur]} ∪ visited) rest)
          as (closed & Hsub & Hq & Hc1 & Hc2); [| |exact H|].
        -- intros v Hv (m & Hm & Hsrc).
           apply elem_of_union in Hv as [Hv|Hv].
           ++ apply elem_of_singleton in Hv as ->.
              unfold nodeAt in Hm. congruence.
           ++ apply (Hns v Hv). exists m. split; assumption.
        -- intros v w Hv (m & Hm & Hsrc) Ha.
           apply elem_of_union in Hv as [Hv|Hv].
           ++ apply elem_of_singleton in Hv as ->.
              unfold nodeAt in Hm. congruence.
           ++ destruct (Hcl v w Hv (ex_intro _ m (conj Hm Hsrc)) Ha)
                as [Hw|[<-|Hw]].
              ** left. set_solver.
              ** left. set_solver.
              ** right. exact Hw.
        -- exists closed. split; [set_solver|]. split; [|auto].
           intros q [<-|Hin]; [set_solver|apply Hq, Hin].
Qed.

Lemma closed_holds_searched (closed : gset string) (a c : string) :
  (forall v w, v ∈ closed -> expandable nodes v ->
               adjacent connections v w -> w ∈ closed) ->
  searched nodes connections a c -> a ∈ closed -> c ∈ closed.
Proof.
  intros Hcl H. induction H as [a|a b c Ha Hab Hbc IH]; intros Hin.
  - exact Hin.
  - apply IH. eapply Hcl; eassumption.
Qed.

(** The answer of the search, in terms of what it follows. *)
Lemma isNodeConnectedToSource_searched (start : string) :
  isNodeConnectedToSource start nodes connections = true
  <-> exists s, searched nodes connections start s /\ sourceAt nodes s.
Proof.
  unfold isNodeConnectedToSource.
  destruct (search_from_start start) as [b Hb]. rewrite Hb. simpl.
  destruct b.
  - split; [intros _|reflexivity].
    eapply search_true_sound; [|exact Hb].
    intros q [<-|[]]. apply searched_here.
  - split; [discriminate|]. intros (s & Hs & Hsrc). exfalso.
    apply search_false_closed in Hb
      as (closed & _ & Hq & Hns & Hcl).
    + apply (Hns s); [|exact Hsrc].
      eapply closed_holds_searched; [exact Hcl|exact Hs|].
      apply Hq. left. reflexivity.
    + intros v Hv. set_solver.
    + intros v w Hv. set_solver.
Qed.

(** *** The search and the graph *)

Lemma nodeAt_Some (i : string) (n : ElectricalNode) :
  nodeAt nodes i = Some n -> In n nodes /\ id n = i.
Proof.
  unfold nodeAt. intros H. apply find_some in H as [Hin Heq].
  split; [exact Hin|]. apply String.eqb_eq. exact Heq.
Qed.

Lemma isNode_nodeAt (i : string) :
  isNode nodes i -> exists m, nodeAt nodes i = Some m.
Proof.
  intros (n & Hin & Hid). unfold nodeAt.
  destruct (List.find _ nodes) as [m|] eqn:E; [exists m; reflexivity|].
  pose proof (find_none _ _ E n Hin) as H. simpl in H.
  apply String.eqb_neq in H. congruence.
Qed.

Lemma nodeAt_unique (n : ElectricalNode) :
  NoDup (map id nodes) -> In n nodes -> nodeAt nodes (id n) = Some n.
Proof.
  unfold nodeAt. induction nodes as [|x l IH]; intros Hnd Hin;
    [destruct Hin|].
  simpl in *. inversion Hnd as [|? ? Hx Hl]; subst.
  destruct Hin as [->|Hin].
  - rewrite String.eqb_refl. reflexivity.
  - destruct (String.eqb (id x) (id n)) eqn:E; [|apply IH; assumption].
    apply String.eqb_eq in E. exfalso. apply Hx. rewrite E.
    apply list_elem_of_In. apply in_map. exact Hin.
Qed.

Lemma searched_chain (a c : string) :
  searched nodes connections a c -> chain nodes connections a c.
Proof.
  intros H. induction H as [a|a b c (n & Hn & _) Hab Hbc IH].
  - apply chain_here.
  - eapply chain_step; [|exact Hab|exact IH].
    apply nodeAt_Some in Hn as [Hin Hid]. exists n. auto.
Qed.

Lemma chain_searched (a t : string) :
  NoDup (map id nodes) ->
  chain nodes connections a t ->
  (exists n, In n nodes /\ id n = t /\ isSourceType (type n) = true) ->
  exists s, searched nodes connections a s /\ sourceAt nodes s.
Proof.
  intros Hnd H. induction H as [a|a b c Ha Hab Hbc IH]; intros Hsrc.
  - destruct Hsrc as (n & Hin & <- & Hs). exists (id n).
    split; [apply searched_here|]. exists n.
    split; [apply nodeAt_unique; assumption|exact Hs].
  - destruct (IH Hsrc) as (s & Hs & Hat).
    destruct (isNode_nodeAt a Ha) as (m & Hm).
    destruct (isSourceType (type m)) eqn:Em.
    + exists a. split; [apply searched_here|]. exists m. auto.
    + exists s. split; [|exact Hat].
      eapply searched_step; [|exact Hab|exact Hs]. exists m. auto.
Qed.

Lemma isNodeConnectedToSource_reachable (a : string) :
  NoDup (map id nodes) ->
  isNodeConnectedToSource a nodes connections = true
  <-> sourceReachable nodes connections a.
Proof.
  intros Hnd. rewrite isNodeConnectedToSource_searched. split.
  - intros (s & Hs & n & Hn & Hsrc).
    apply nodeAt_Some in Hn as [Hin <-].
    exists n. split; [exact Hin|]. split; [exact Hsrc|].
    apply searched_chain, Hs.
  - intros (n & Hin & Hsrc & Hch).
    eapply chain_searched; [exact Hnd|exact Hch|].
    exists n. auto.
Qed.


End ConnectivityProperties.

Section ConnectivityClaim.

Import Validation Graph Examples.

Lemma chain_transfer (nodes nodes' : list ElectricalNode)
    (conns conns' : list Connection) :
  (forall a, isNode nodes a -> isNode nodes' a) ->
  (forall a b, adjacent conns a b -> adjacent conns' a b) ->
  forall a c, chain nodes conns a c -> chain nodes' conns' a c.
Proof.
  intros Hn Ha a c H. induction H as [a|a b c Hna Hab Hbc IH].
  - apply chain_here.
  - eapply chain_step; [apply Hn, Hna|apply Ha, Hab|exact IH].
Qed.

Lemma same_shape_nodes (nodes nodes' : list ElectricalNode)
    (n : ElectricalNode) :
  map (fun n => (id n, type n)) nodes = map (fun n => (id n, type n)) nodes' ->
  In n nodes -> exists n', In n' nodes' /\ id n' = id n /\ type n' = type n.
Proof.
  intros Hmap Hin.
  apply (in_map (fun n => (id n, type n))) in Hin. rewrite Hmap in Hin.
  apply in_map_iff in Hin as (n' & Heq & Hin'). exists n'.
  injection Heq as H1 H2. auto.
Qed.

Lemma same_shape_adjacent (conns conns' : list Connection) (a b : string) :
  map (fun c => (fromNodeId c, toNodeId c)) conns
  = map (fun c => (fromNodeId c, toNodeId c)) conns' ->
  adjacent conns a b -> adjacent conns' a b.
Proof.
  intros Hmap (c & Hin & Hends).
  apply (in_map (fun c => (fromNodeId c, toNodeId c))) in Hin.
  rewrite Hmap in Hin. apply in_map_iff in Hin as (c' & Heq & Hin').
  injection Heq as H1 H2. exists c'. split; [exact Hin'|].
  rewrite H1, H2. exact Hends.
Qed.

Lemma sourceReachable_same_shape (nodes nodes' : list ElectricalNode)
    (conns conns' : list Connection) (a : string) :
  map (fun n => (id n, type n)) nodes = map (fun n => (id n, type n)) nodes' ->
  map (fun c => (fromNodeId c, toNodeId c)) conns
  = map (fun c => (fromNodeId c, toNodeId c)) conns' ->
  sourceReachable nodes conns a -> sourceReachable nodes' conns' a.
Proof.
  intros Hn Hc (n & Hin & Hsrc & Hch).
  destruct (same_shape_nodes _ _ n Hn Hin) as (n' & Hin' & Hid & Hty).
  exists n'. split; [exact Hin'|]. split; [congruence|].
  rewrite Hid. eapply chain_transfer; [| |exact Hch].
  - intros x (m & Hm & <-).
    destruct (same_shape_nodes _ _ m Hn Hm) as (m' & Hm' & Hid' & _).
    exists m'. auto.
  - intros x y. apply same_shape_adjacent. exact Hc.
Qed.

(** C2.  With ids that name one node each, [isNodeConnectedToSource]
    answers true exactly for the ids from which a battery, solar,
    alternator or charger node is reachable along connections, taken in
    either direction, and [findUnpoweredConsumers] returns exactly the
    consumers for which there is none.  The answer depends on the ids,
    the types and the endpoints only: circuits that differ in nothing
    else (voltages, currents, sections, lengths) get the same answer. *)
Theorem unpowered_iff_no_source_reachable
    (nodes : list ElectricalNode) (conns : list Connection) :
  NoDup (map id nodes) ->
  (forall a,
      isNodeConnectedToSource a nodes conns = true
      <-> sourceReachable nodes conns a)
  /\ (forall c,
        In c (findUnpoweredConsumers nodes conns)
        <-> In c nodes /\ type c = consumer
            /\ ~ sourceReachable nodes conns (id c))
  /\ (forall nodes' conns' a,
        map (fun n => (id n, type n)) nodes'
        = map (fun n => (id n, type n)) nodes ->
        map (fun c => (fromNodeId c, toNodeId c)) conns'
        = map (fun c => (fromNodeId c, toNodeId c)) conns ->
        isNodeConnectedToSource a nodes' conns'
        = isNodeConnectedToSource a nodes conns).
Proof.
  intros Hnd. split; [|split].
  - intros a. apply isNodeConnectedToSource_reachable. exact Hnd.
  - intros c. unfold findUnpoweredConsumers. rewrite !filter_In.
    unfold Power.isType. rewrite bool_decide_eq_true, negb_true_iff.
    rewrite <- (isNodeConnectedToSource_reachable nodes conns (id c) Hnd).
    destruct (isNodeConnectedToSource (id c) nodes conns);
      intuition congruence.
  - intros nodes' conns' a Hn Hc.
    assert (Hnd' : NoDup (map id nodes')).
    { replace (map id nodes')
        with (map fst (map (fun n => (id n, type n)) nodes'))
        by (rewrite map_map; reflexivity).
      rewrite Hn, map_map. exact Hnd. }
    pose proof (isNodeConnectedToSource_reachable nodes conns a Hnd) as H.
    pose proof (isNodeConnectedToSource_reachable nodes' conns' a Hnd')
      as H'.
    destruct (isNodeConnectedToSource a nodes conns);
      destruct (isNodeConnectedToSource a nodes' conns');
      try reflexivity; exfalso.
    + assert (Hr : sourceReachable nodes' conns' a).
      { eapply sourceReachable_same_shape;
          [symmetry; exact Hn|symmetry; exact Hc|].
        apply H. reflexivity. }
      apply H' in Hr. discriminate.
    + assert (Hr : sourceReachable nodes conns a).
      { eapply sourceReachable_same_shape; [exact Hn|exact Hc|].
        apply H'. reflexivity. }
      apply H in Hr. discriminate.
Qed.

Example connectivity_through_a_bus :
  let nodes :=
    [consumerNode "lamp" V12 (Some 24) None; busNode "bar" V12;
     batteryNode "bank" V12 100 None Absent;
     consumerNode "pump" V12 (Some 60) None] in
  let conns := [cable "k1" "bar" "lamp" 2.5 3; cable "k2" "bank" "bar" 6 1] in
  isNodeConnectedToSource "lamp" nodes conns = true
  /\ isNodeConnectedToSource "pump" nodes conns = false
  /\ map id (findUnpoweredConsumers nodes conns) = ["pump"].
Proof. vm_compute. auto. Qed.

Lemma unpowered_iff_no_source_reachable_witness :
  let nodes :=
    [consumerNode "lamp" V12 (Some 24) None; busNode "bar" V12;
     batteryNode "bank" V12 100 None Absent;
     consumerNode "pump" V12 (Some 60) None] in
  let conns := [cable "k1" "bar" "lamp" 2.5 3; cable "k2" "bank" "bar" 6 1] in
  sourceReachable nodes conns "lamp"
  /\ ~ sourceReachable nodes conns "pump".
Proof.
  intros nodes conns.
  assert (Hnd : NoDup (map id nodes)).
  { apply NoDup_ListNoDup. vm_compute.
    repeat (constructor; [simpl; intuition discriminate|]).
    constructor. }
  destruct (unpowered_iff_no_source_reachable nodes conns Hnd)
    as (Hiff & _ & _).
  split.
  - apply Hiff. vm_compute. reflexivity.
  - intros H. apply Hiff in H. vm_compute in H. discriminate.
Defined.

End ConnectivityClaim.

(** ** Further properties: sums, rounding and ordered tables *)

Section MoreFacts.



Lemma sumOf_ext_in {A : Type} (f g : A -> Q) (l : list A) :
  (forall x, In x l -> f x == g x) -> Power.sumOf f l == Power.sumOf g l.
Proof.
  intros H. induction l as [|x l IH]; [reflexivity|].
  rewrite !sumOf_cons, IH, (H x (or_introl eq_refl)); [reflexivity|].
  intros y Hy. apply H. right. exact Hy.
Qed.


Lemma sumOf_nonneg {A : Type} (g : A -> Q) (l : list A) :
  (forall x, In x l -> 0 <= g x) -> 0 <= Power.sumOf g l.
Proof.
  intros H. induction l as [|x l IH]; [unfold Power.sumOf; simpl; lra|].
  rewrite sumOf_cons.
  assert (0 <= g x) by (apply H; left; reflexivity).
  assert (0 <= Power.sumOf g l) by (apply IH; intros y Hy; apply H; right; exact Hy).
  lra.
Qed.

(** [Math.round a] is within a half of [a]. *)
Lemma round_bounds (a : Q) :
  a - 0.5 < inject_Z (Num.round a) /\ inject_Z (Num.round a) <= a + 0.5.
Proof.
  unfold Num.round.
  pose proof (Qfloor_le (a + 1 / 2)) as Hle.
  pose proof (Qlt_floor (a + 1 / 2)) as Hlt.
  rewrite inject_Z_plus in Hlt. change (inject_Z 1) with 1 in Hlt.
  assert (H12 : 1 / 2 == 0.5) by reflexivity.
  set (h := 1 / 2) in *. clearbody h.
  set (z := inject_Z (Qfloor (a + h))) in *. clearbody z.
  lra.
Qed.
Lemma roundTo_nonneg (k x : Q) : 0 < k -> 0 <= x -> 0 <= Num.roundTo k x.
Proof.
  intros Hk Hx. unfold Num.roundTo.
  apply Qle_shift_div_l; [exact Hk|]. rewrite Qmult_0_l.
  assert (H0 : 0 <= x * k) by (apply Qmult_le_0_compat; lra).
  destruct (round_bounds (x * k)) as [H1 _].
  assert (Hz : (-1 < Num.round (x * k))%Z).
  { rewrite Zlt_Qlt. change (inject_Z (-1)) with (-1). 
    set (z := inject_Z (Num.round (x * k))) in *. clearbody z.
    set (a := x * k) in *. clearbody a. lra. }
  change 0 with (inject_Z 0). rewrite <- Zle_Qle. lia.
Qed.
(** A rounded percentage above 3 comes from a percentage above 3. *)
Lemma roundTo_above (x : Q) : 3 < Num.roundTo 100 x -> 3 < x.
Proof.
  intros H. unfold Num.roundTo in H.
  destruct (round_bounds (x * 100)) as [_ H2].
  assert (Hz : 300 < inject_Z (Num.round (x * 100))).
  { destruct (Qlt_le_dec 300 (inject_Z (Num.round (x * 100)))) as [Hgt|Hle];
      [exact Hgt|].
    exfalso.
    assert (Hd : inject_Z (Num.round (x * 100)) / 100 <= 3).
    { apply Qle_shift_div_r; [reflexivity|].
      assert (E : 3 * 100 == 300) by reflexivity. rewrite E. exact Hle. }
    apply (Qlt_irrefl 3). eapply Qlt_le_trans; eassumption. }
  assert (Hz' : (301 <= Num.round (x * 100))%Z).
  { change 300 with (inject_Z 300) in Hz. rewrite <- Zlt_Qlt in Hz. lia. }
  rewrite Zle_Qle in Hz'. change (inject_Z 301) with 301 in Hz'.
  set (z := inject_Z (Num.round (x * 100))) in *. clearbody z. lra.
Qed.

(** The first entry with a large enough key, in a list whose keys and
    values both ascend. *)
Lemma find_first_mono {A : Type} (key val : A -> Q) (l : list A) (x y : Q) :
  StronglySorted (fun a b => key a <= key b /\ val a <= val b) l ->
  x <= y ->
  forall t,
    List.find (fun a => Num.geb (key a) y) l = Some t ->
    exists s,
      List.find (fun a => Num.geb (key a) x) l = Some s /\ val s <= val t.
Proof.
  intros Hs Hxy. induction l as [|a l IH]; intros t Ht; [discriminate|].
  apply StronglySorted_inv in Hs as [Hl Ha]. simpl in *.
  destruct (Num.geb (key a) y) eqn:Ey.
  - injection Ht as <-. apply geb_ge in Ey.
    assert (Ex : Num.geb (key a) x = true) by (apply geb_ge; lra).
    rewrite Ex. exists a. split; [reflexivity|lra].
  - destruct (Num.geb (key a) x) eqn:Ex.
    + exists a. split; [reflexivity|].
      apply find_some in Ht as [Hin _].
      rewrite Forall_forall in Ha. destruct (Ha t); [|assumption].
      apply list_elem_of_In. exact Hin.
    + apply IH; assumption.
Qed.

Lemma find_first_least {A : Type} (key : A -> Q) (l : list A) (x : Q) (t : A) :
  StronglySorted (fun a b => key a <= key b) l ->
  List.find (fun a => Num.geb (key a) x) l = Some t ->
  x <= key t /\ forall s, In s l -> x <= key s -> key t <= key s.
Proof.
  intros Hs. induction l as [|a l IH]; intros Ht; [discriminate|].
  apply StronglySorted_inv in Hs as [Hl Ha]. simpl in *.
  destruct (Num.geb (key a) x) eqn:Ex.
  - injection Ht as <-. apply geb_ge in Ex. split; [exact Ex|].
    intros s [<-|Hin] _; [lra|].
    rewrite Forall_forall in Ha. apply Ha, list_elem_of_In, Hin.
  - destruct (IH Hl Ht) as [H1 H2]. split; [exact H1|].
    intros s [<-|Hin] Hx; [|apply H2; assumption].
    unfold Num.geb in Ex. apply leb_gt in Ex. lra.
Qed.

Lemma StronglySorted_weaken {A : Type} (R R' : A -> A -> Prop) (l : list A) :
  (forall a b, R a b -> R' a b) -> StronglySorted R l -> StronglySorted R' l.
Proof.
  intros HR H. induction H as [|a l Hl IH Ha]; constructor; [exact IH|].
  eapply Forall_impl; [exact Ha|]. intros b. apply HR.
Qed.


End MoreFacts.

(** ** Further properties: power and energy *)

Section MorePowerProperties.

Import Power Battery Validation Examples Invariants.










End MorePowerProperties.

(** ** Further properties: battery sizing *)

Section MoreBatteryProperties.

Import Power Battery Examples Invariants.





(** X6.  The usable capacity lies between 50 % and 80 % of the installed
    capacity: the effective depth of discharge is one of the two values of
    the chemistry table. *)
Theorem usable_capacity_bounds (nodes : list ElectricalNode) :
  0 <= getTotalBatteryCapacityAh nodes ->
  (getEffectiveDoD nodes == 0.5 \/ getEffectiveDoD nodes == 0.8)
  /\ 0.5 * getTotalBatteryCapacityAh nodes <= getUsableBatteryCapacityAh nodes
  /\ getUsableBatteryCapacityAh nodes <= 0.8 * getTotalBatteryCapacityAh nodes.
Proof.
  intros H. unfold getUsableBatteryCapacityAh, getEffectiveDoD.
  set (t := getTotalBatteryCapacityAh nodes) in *. clearbody t.
  destruct (getDominantBatteryChemistry nodes); simpl;
    (split; [first [left; reflexivity|right; reflexivity]|]); cbv zeta; lra.
Qed.

Lemma usable_capacity_bounds_witness :
  getUsableBatteryCapacityAh [batteryNode "b" V12 100 None Absent]
  <= 0.8 * getTotalBatteryCapacityAh [batteryNode "b" V12 100 None Absent].
Proof.
  apply (usable_capacity_bounds [batteryNode "b" V12 100 None Absent]).
  apply Qle_bool_imp_le. reflexivity.
Defined.

Lemma single_chemistry_table (c : BatteryChemistry) (l : list ElectricalNode) :
  (forall n, In n l -> hasChemistry c n) ->
  forall s,
  exists s',
    fold_left
      (fun tbl bat =>
         match props bat with
         | BatteryProps capacityAh chemistry quantity _ =>
             addCapacity chemistry (capacityAh * default 1 quantity) tbl
         | _ => tbl
         end)
      l [(c, s)] = [(c, s')]
    /\ s' == s + sumOf batteryWeight l.
Proof.
  induction l as [|b l IH]; intros Hc s.
  - exists s. split; [reflexivity|]. unfold sumOf. simpl. lra.
  - cbn [fold_left].
    assert (Hb : hasChemistry c b) by (apply Hc; left; reflexivity).
    assert (Hl : forall n, In n l -> hasChemistry c n)
      by (intros n Hn; apply Hc; right; exact Hn).
    unfold hasChemistry in Hb.
    pose proof (sumOf_cons batteryWeight b l) as Hsum.
    unfold batteryWeight at 2 in Hsum.
    destruct (props b) as [? ? ? ?|cap chem q cfg|? ? ?|? ? ?|?|? ?|?|?|?];
      try (destruct (IH Hl s) as (s' & -> & Hs); exists s';
           split; [reflexivity|]; lra).
    subst chem. simpl. rewrite bool_decide_eq_true_2 by reflexivity.
    destruct (IH Hl (s + cap * default 1 q)) as (s' & -> & Hs).
    exists s'. split; [reflexivity|]. lra.
Qed.

(** X7.  When all the batteries of the array have the same chemistry and
    their capacities, weighted by quantity, add up to more than zero, that
    chemistry is the dominant one and gives the depth of discharge. *)
Theorem dominant_chemistry_of_uniform_bank
    (nodes : list ElectricalNode) (c : BatteryChemistry) :
  (forall n, In n nodes -> hasChemistry c n) ->
  0 < sumOf batteryWeight (List.filter (isType battery) nodes) ->
  getDominantBatteryChemistry nodes = c
  /\ getEffectiveDoD nodes = DOD_BY_CHEMISTRY c.
Proof.
  intros Hc Hpos.
  assert (Hd : getDominantBatteryChemistry nodes = c).
  { unfold getDominantBatteryChemistry. cbv zeta.
    assert (Hf : forall n, In n (List.filter (isType battery) nodes) ->
                           hasChemistry c n).
    { intros n Hn. apply filter_In in Hn as [Hn _]. apply Hc, Hn. }
    assert (Hbat : forall n, In n (List.filter (isType battery) nodes) ->
                             type n = battery).
    { intros n Hn. apply filter_In in Hn as [_ Hn].
      apply bool_decide_eq_true in Hn. exact Hn. }
    destruct (List.filter (isType battery) nodes) as [|b l] eqn:E.
    { unfold sumOf in Hpos. simpl in Hpos. lra. }
    rewrite sumOf_cons in Hpos.
    assert (Hb : hasChemistry c b) by (apply Hf; left; reflexivity).
    assert (Hbt : type b = battery) by (apply Hbat; left; reflexivity).
    unfold batteryWeight at 1 in Hpos. unfold hasChemistry in Hb.
    unfold type in Hbt. simpl fold_left at 2.
    destruct (props b) as [? ? ? ?|cap chem q cfg|? ? ?|? ? ?|?|? ?|?|?|?];
      try discriminate.
    subst chem. simpl addCapacity.
    destruct (single_chemistry_table c l
                (fun n Hn => Hf n (or_intror Hn)) (0 + cap * default 1 q))
      as (s' & -> & Hs).
    simpl.
    assert (Hg : Num.gtb s' 0 = true) by (apply gtb_gt; lra).
    rewrite Hg. reflexivity. }
  split; [exact Hd|]. unfold getEffectiveDoD. rewrite Hd. reflexivity.
Qed.

Lemma dominant_chemistry_of_uniform_bank_witness :
  getDominantBatteryChemistry
    [consumerNode "a" V12 (Some 120) None;
     batteryNode "b" V12 100 (Some 2) Absent] = lead.
Proof.
  apply (dominant_chemistry_of_uniform_bank
           [consumerNode "a" V12 (Some 120) None;
            batteryNode "b" V12 100 (Some 2) Absent] lead).
  - intros n [<-|[<-|[]]]; reflexivity || exact I.
  - vm_compute. reflexivity.
Defined.



End MoreBatteryProperties.

(** ** Further properties: cable analysis *)

Section MoreCableProperties.

Import CableStandards Power Cables Validation Examples Invariants.





(** The table ascends in rating and in section alike. *)
Lemma table_sorted :
  StronglySorted
    (fun a b => maxCurrentA a <= maxCurrentA b
                /\ specSectionMm2 a <= specSectionMm2 b)
    cableStandards.
Proof.
  unfold cableStandards.
  repeat constructor; apply Qle_bool_imp_le; reflexivity.
Qed.

Lemma table_sorted_by_section :
  StronglySorted
    (fun a b => specSectionMm2 a <= specSectionMm2 b
                /\ specSectionMm2 a <= specSectionMm2 b)
    cableStandards.
Proof.
  unfold cableStandards.
  repeat constructor; apply Qle_bool_imp_le; reflexivity.
Qed.

Lemma table_sections (s : CableSpec) :
  In s cableStandards -> 0.5 <= specSectionMm2 s <= 120.
Proof.
  intros H.
  assert (Hall : Forall (fun s => 0.5 <= specSectionMm2 s <= 120)
                   cableStandards).
  { unfold cableStandards.
    repeat constructor; apply Qle_bool_imp_le; reflexivity. }
  rewrite Forall_forall in Hall. apply Hall, list_elem_of_In, H.
Qed.



Lemma recommended_section_in_table (I L V p : Q) :
  exists spec,
    In spec cableStandards
    /\ getRecommendedSection I L V p = specSectionMm2 spec.
Proof.
  unfold getRecommendedSection. cbv zeta.
  destruct (List.find
              (fun s => Num.geb_x (specSectionMm2 s) _) cableStandards)
    as [s|] eqn:E.
  - exists s. apply find_some in E as [Hin _]. split; [exact Hin|reflexivity].
  - exists (mk 120 310 250 0.153). split; [|reflexivity].
    unfold cableStandards. simpl. tauto.
Qed.

(** X11.  The recommended section is always a section of the table of
    standards, between 0.5 and 120 mm², whatever the inputs. *)
Theorem recommended_section_is_standard (I L V p : Q) :
  exists spec,
    In spec cableStandards
    /\ getRecommendedSection I L V p = specSectionMm2 spec
    /\ 0.5 <= getRecommendedSection I L V p <= 120.
Proof.
  destruct (recommended_section_in_table I L V p) as (spec & Hin & Heq).
  exists spec. split; [exact Hin|]. split; [exact Heq|]. rewrite Heq.
  apply table_sections, Hin.
Qed.




Lemma find_never {A : Type} (l : list A) :
  List.find (fun _ => false) l = None.
Proof. induction l as [|a l IH]; [reflexivity|exact IH]. Qed.

Lemma first_section_mono (m m' : Num.xnum) :
  xle m m' ->
  default lastSection
    (specSectionMm2
       <$> List.find (fun s => Num.geb_x (specSectionMm2 s) m) cableStandards)
  <= default lastSection
       (specSectionMm2
          <$> List.find (fun s => Num.geb_x (specSectionMm2 s) m')
                cableStandards).
Proof.
  intros Hle.
  assert (Hup : forall x,
             default lastSection
               (specSectionMm2
                  <$> List.find (fun s => Num.geb_x (specSectionMm2 s) x)
                        cableStandards) <= 120).
  { intros x. destruct (List.find _ cableStandards) as [t|] eqn:E; simpl.
    - apply find_some in E as [Hin _]. apply table_sections in Hin. lra.
    - change lastSection with 120. lra. }
  destruct m' as [b|].
  - destruct m as [a|]; [|destruct Hle]. simpl in Hle.
    change (fun s => Num.geb_x (specSectionMm2 s) (Num.Fin a))
      with (fun s => Num.geb (specSectionMm2 s) a) in *.
    change (fun s => Num.geb_x (specSectionMm2 s) (Num.Fin b))
      with (fun s => Num.geb (specSectionMm2 s) b) in *.
    destruct (List.find (fun s => Num.geb (specSectionMm2 s) b)
                cableStandards) as [t|] eqn:Eb.
    + destruct (find_first_mono specSectionMm2 specSectionMm2 cableStandards
                  a b table_sorted_by_section Hle t Eb) as (s & -> & Hst).
      simpl. exact Hst.
    + simpl. change lastSection with 120.
      apply (Hup (Num.Fin a)).
  - change (fun s => Num.geb_x (specSectionMm2 s) Num.PInf)
      with (fun _ : CableSpec => false).
    rewrite find_never. simpl. change lastSection with 120. apply Hup.
Qed.

(** X13.  For currents a section of the table can carry with the 25 %
    margin, the recommended section never shrinks when the current or the
    length grows. *)
Theorem recommended_section_monotone (I I' L L' V p : Q) :
  0 <= I -> I <= I' -> 0 <= L -> L <= L' -> I' * 1.25 <= 310 ->
  getRecommendedSection I L V p <= getRecommendedSection I' L' V p.
Proof.
  intros HI HII HL HLL Hmax. unfold getRecommendedSection. cbv zeta.
  apply first_section_mono.
  assert (Hcur : default 0.5
                   (specSectionMm2
                      <$> List.find
                            (fun s => Num.geb (maxCurrentA s) (I * 1.25))
                            cableStandards)
                 <= default 0.5
                      (specSectionMm2
                         <$> List.find
                               (fun s => Num.geb (maxCurrentA s) (I' * 1.25))
                               cableStandards)).
  { destruct (List.find (fun s => Num.geb (maxCurrentA s) (I' * 1.25))
                cableStandards) as [t|] eqn:Et.
    - destruct (find_first_mono maxCurrentA specSectionMm2 cableStandards
                  (I * 1.25) (I' * 1.25) table_sorted ltac:(lra) t Et)
        as (s & -> & Hst).
      simpl. exact Hst.
    - exfalso.
      assert (Hl : In (mk 120 310 250 0.153) cableStandards).
      { unfold cableStandards. simpl. tauto. }
      pose proof (find_none _ _ Et _ Hl) as H. cbv beta in H.
      apply leb_gt in H. simpl in H. lra. }
  remember (default 0.5
              (specSectionMm2
                 <$> List.find (fun s => Num.geb (maxCurrentA s) (I * 1.25))
                       cableStandards)) as q eqn:Eq.
  remember (default 0.5
              (specSectionMm2
                 <$> List.find (fun s => Num.geb (maxCurrentA s) (I' * 1.25))
                       cableStandards)) as q' eqn:Eq'.
  clear Eq Eq'.
  assert (Hdrop : xle (calculateMinSection I L V p)
                    (calculateMinSection I' L' V p)).
  { unfold calculateMinSection. cbv zeta.
    destruct (Num.leb (V * (p / 100)) 0) eqn:Em; [constructor|].
    apply leb_gt in Em. unfold xle.
    assert (Hprod : L * I <= L' * I').
    { assert (0 <= (L' - L) * I') by (apply Qmult_le_0_compat; lra).
      assert (0 <= L * (I' - I)) by (apply Qmult_le_0_compat; lra).
      lra. }
    set (m := V * (p / 100)) in *. clearbody m.
    apply Qle_shift_div_l; [exact Em|].
    assert (E : 2 * COPPER_RESISTIVITY * L * I / m * m
                == 2 * COPPER_RESISTIVITY * L * I) by (field; lra).
    rewrite E. unfold COPPER_RESISTIVITY. lra. }
  destruct (calculateMinSection I L V p) as [a|],
           (calculateMinSection I' L' V p) as [b|];
    unfold xle, Num.xmax in *.
  - destruct (Num.ltb a q) eqn:Ea, (Num.ltb b q') eqn:Eb;
      try apply ltb_lt in Ea; try apply ltb_lt in Eb;
      try apply ltb_ge in Ea; try apply ltb_ge in Eb; lra.
  - constructor.
  - destruct Hdrop.
  - constructor.
Qed.

Lemma recommended_section_monotone_witness :
  getRecommendedSection 10 5 12 3 <= getRecommendedSection 20 8 12 3.
Proof.
  apply (recommended_section_monotone 10 20 5 8 12 3);
    apply Qle_bool_imp_le; reflexivity.
Defined.


(** X14.  The analysis has one row per connection, in the order of the
    connections, each row carrying the id of its connection, whether the
    endpoints are found or not. *)
Theorem analyses_follow_connections
    (conns : list Connection) (nodes : list ElectricalNode) :
  map connectionId (analyzeAllCables conns nodes) = map connId conns
  /\ length (analyzeAllCables conns nodes) = length conns.
Proof.
  unfold analyzeAllCables. split.
  - rewrite map_map. apply map_ext. intros conn.
    destruct (buildNodeMap nodes !! fromNodeId conn),
             (buildNodeMap nodes !! toNodeId conn); reflexivity.
  - apply length_map.
Qed.

(** X15.  The overcurrent errors of a validation are the overloaded rows
    of the analysis, one error per row in the same order, and the number
    of errors is the number of voltage mismatches plus the number of
    overloaded cables, plus one when there is no battery. *)
Theorem overcurrent_errors_are_overloaded_cables
    (nodes : list ElectricalNode) (conns : list Connection) :
  map errConnectionId (overcurrentErrors (analyzeAllCables conns nodes))
  = map (fun a => Some (connectionId a))
      (getOverloadedCables (analyzeAllCables conns nodes))
  /\ length (errors (validateCircuit nodes conns))
     = ((if existsb (isType battery) nodes then 0 else 1)
        + length (checkVoltageMismatch nodes conns)
        + length (getOverloadedCables (analyzeAllCables conns nodes)))%nat.
Proof.
  assert (H : forall l,
             map errConnectionId (overcurrentErrors l)
             = map (fun a => Some (connectionId a)) (getOverloadedCables l)).
  { intros l. unfold overcurrentErrors, getOverloadedCables.
    induction l as [|a l IH]; [reflexivity|]. simpl.
    destruct (bool_decide (status a = st_overload)); simpl;
      rewrite IH; reflexivity. }
  split; [apply H|].
  unfold validateCircuit. simpl. rewrite !length_app.
  rewrite <- (length_map errConnectionId (overcurrentErrors _)), H,
    length_map.
  destruct (existsb (isType battery) nodes); reflexivity.
Qed.

(** X16.  On the rows of an analysis, the cables listed for a high
    voltage drop contain every row of status warning and no row of status
    ok: the rounded percentage of a row exceeds 3 only if the percentage
    itself does. *)
Theorem high_drop_cables_and_status
    (conns : list Connection) (nodes : list ElectricalNode)
    (a : CableAnalysis) :
  In a (analyzeAllCables conns nodes) ->
  (status a = st_warning ->
   In a (getHighVoltageDropCables (analyzeAllCables conns nodes)))
  /\ (In a (getHighVoltageDropCables (analyzeAllCables conns nodes)) ->
      status a <> st_ok).
Proof.
  intros Hin. unfold getHighVoltageDropCables. rewrite filter_In. split.
  - intros Hs. split; [exact Hin|].
    rewrite (bool_decide_eq_true_2 _ Hs). reflexivity.
  - intros [_ Hf] Hok.
    rewrite (bool_decide_eq_false_2 (status a = st_warning)) in Hf
      by (rewrite Hok; discriminate).
    simpl in Hf. apply gtb_gt in Hf.
    unfold analyzeAllCables in Hin. apply in_map_iff in Hin
      as (conn & Ha & _).
    destruct (buildNodeMap nodes !! fromNodeId conn) as [f|];
      [destruct (buildNodeMap nodes !! toNodeId conn) as [t|]|];
      subst a; try (vm_compute in Hf; discriminate).
    unfold analyzeCable in Hf, Hok. cbn [voltageDropPercent status] in Hf, Hok.
    apply roundTo_above in Hf.
    unfold cableStatus in Hok. cbv zeta in Hok.
    destruct (Num.gtb (cableCurrent f t) _); [discriminate|].
    destruct (Num.gtb _ MAX_VOLTAGE_DROP_PERCENT) eqn:Ed; [discriminate|].
    apply gtb_le in Ed. unfold MAX_VOLTAGE_DROP_PERCENT in *. lra.
Qed.

Lemma high_drop_cables_and_status_witness :
  let conns := [cable "k" "c" "b" 2.5 5] in
  let nodes :=
    [consumerNode "c" V12 (Some 120) None;
     batteryNode "b" V12 100 None Absent] in
  let a :=
    analyzeCable (cable "k" "c" "b" 2.5 5)
      (consumerNode "c" V12 (Some 120) None)
      (batteryNode "b" V12 100 None Absent) in
  In a (getHighVoltageDropCables (analyzeAllCables conns nodes)).
Proof.
  intros conns nodes a.
  apply (high_drop_cables_and_status conns nodes a).
  - left. reflexivity.
  - reflexivity.
Defined.


Lemma analyzeAllCables_loss_nonneg
    (conns : list Connection) (nodes : list ElectricalNode)
    (a : CableAnalysis) :
  (forall c, In c conns -> 0 <= lengthM c /\ 0 < sectionMm2 c) ->
  In a (analyzeAllCables conns nodes) -> 0 <= powerLossW a.
Proof.
  intros Hc Hin. unfold analyzeAllCables in Hin.
  apply in_map_iff in Hin as (conn & Ha & Hconn).
  destruct (Hc conn Hconn) as [Hl Hs].
  destruct (buildNodeMap nodes !! fromNodeId conn) as [f|];
    [destruct (buildNodeMap nodes !! toNodeId conn) as [t|]|];
    subst a; try (simpl; lra).
  unfold analyzeCable. cbn [powerLossW].
  apply roundTo_nonneg; [reflexivity|].
  unfold calculatePowerLoss. cbv zeta.
  apply Qmult_le_0_compat.
  - destruct (Qlt_le_dec (cableCurrent f t) 0) as [Hn|Hp].
    + assert (E : cableCurrent f t * cableCurrent f t
                  == (- cableCurrent f t) * (- cableCurrent f t)) by ring.
      rewrite E. apply Qmult_le_0_compat; lra.
    + apply Qmult_le_0_compat; assumption.
  - apply Qle_shift_div_l; [exact Hs|]. rewrite Qmult_0_l.
    unfold COPPER_RESISTIVITY. lra.
Qed.

(** X18.  With lengths that are not negative and sections above zero, no
    row shows a negative power loss and the total loss is not negative;
    a connection with a missing endpoint adds nothing to it. *)
Theorem total_power_loss_nonneg
    (conns : list Connection) (nodes : list ElectricalNode) :
  (forall c, In c conns -> 0 <= lengthM c /\ 0 < sectionMm2 c) ->
  0 <= getTotalPowerLoss (analyzeAllCables conns nodes)
  /\ (forall c, getTotalPowerLoss [emptyAnalysis c] == 0).
Proof.
  intros Hc. split.
  - change (getTotalPowerLoss (analyzeAllCables conns nodes))
      with (sumOf powerLossW (analyzeAllCables conns nodes)).
    apply sumOf_nonneg. intros a Ha.
    eapply analyzeAllCables_loss_nonneg; eassumption.
  - intros c. reflexivity.
Qed.

Lemma total_power_loss_nonneg_witness :
  0 <= getTotalPowerLoss
         (analyzeAllCables [cable "k" "c" "b" 2.5 5]
            [consumerNode "c" V12 (Some 120) None;
             batteryNode "b" V12 100 None Absent]).
Proof.
  apply (total_power_loss_nonneg [cable "k" "c" "b" 2.5 5]
           [consumerNode "c" V12 (Some 120) None;
            batteryNode "b" V12 100 None Absent]).
  intros c [<-|[]]. split; apply Qle_bool_imp_le || reflexivity; reflexivity.
Defined.


End MoreCableProperties.

(** ** Further properties: the tables of standards *)

Section StandardsProperties.

Import CableStandards.

Lemma fuses_sorted :
  StronglySorted (fun a b : Q => a <= b /\ a <= b) standardFuseRatings.
Proof.
  unfold standardFuseRatings.
  repeat constructor; apply Qle_bool_imp_le; reflexivity.
Qed.

Lemma fuses_bounded (r : Q) : In r standardFuseRatings -> 1 <= r <= 300.
Proof.
  intros H.
  assert (Hall : Forall (fun r : Q => 1 <= r <= 300) standardFuseRatings).
  { unfold standardFuseRatings.
    repeat constructor; apply Qle_bool_imp_le; reflexivity. }
  rewrite Forall_forall in Hall. apply Hall, list_elem_of_In, H.
Qed.

Lemma recommended_fuse_cases (I : Q) :
  (exists r,
      List.find (fun rating => Num.geb rating (I * 1.25)) standardFuseRatings
      = Some r
      /\ getRecommendedFuse I = r)
  \/ (List.find (fun rating => Num.geb rating (I * 1.25)) standardFuseRatings
      = None
      /\ getRecommendedFuse I = 300).
Proof.
  unfold getRecommendedFuse. cbv zeta.
  destruct (List.find _ standardFuseRatings) as [r|] eqn:E.
  - left. exists r. split; reflexivity.
  - right. split; reflexivity.
Qed.

Lemma recommended_fuse_in (I : Q) :
  In (getRecommendedFuse I) standardFuseRatings.
Proof.
  destruct (recommended_fuse_cases I) as [(r & E & ->)|[_ ->]].
  - apply find_some in E as [Hin _]. exact Hin.
  - unfold standardFuseRatings. simpl. tauto.
Qed.

(** X19.  The recommended fuse is always a standard rating.  It is the
    smallest rating that covers 125 % of the current when there is one,
    and the largest rating, 300 A, when there is none; it never decreases
    when the current grows. *)
Theorem recommended_fuse_properties :
  (forall I, In (getRecommendedFuse I) standardFuseRatings)
  /\ (forall I I', I <= I' -> getRecommendedFuse I <= getRecommendedFuse I')
  /\ (forall I, I * 1.25 <= 300 ->
        I * 1.25 <= getRecommendedFuse I
        /\ forall r, In r standardFuseRatings -> I * 1.25 <= r ->
                     getRecommendedFuse I <= r)
  /\ (forall I, 300 < I * 1.25 -> getRecommendedFuse I = 300).
Proof.
  split; [exact recommended_fuse_in|]. split; [|split].
  - intros I I' Hle.
    destruct (recommended_fuse_cases I') as [(t & Et & ->)|[_ ->]].
    + destruct (find_first_mono (fun r => r) (fun r => r)
                  standardFuseRatings (I * 1.25) (I' * 1.25)
                  fuses_sorted ltac:(lra) t Et) as (s & Es & Hst).
      unfold getRecommendedFuse. cbv zeta. rewrite Es. exact Hst.
    + apply fuses_bounded, recommended_fuse_in.
  - intros I Hmax.
    destruct (recommended_fuse_cases I) as [(t & Et & ->)|[En _]].
    + assert (Hs : StronglySorted (fun a b : Q => a <= b) standardFuseRatings).
      { eapply StronglySorted_weaken; [|exact fuses_sorted].
        intros a b [H _]. exact H. }
      apply (find_first_least (fun r => r) _ _ _ Hs Et).
    + exfalso.
      assert (Hl : In 300 standardFuseRatings)
        by (unfold standardFuseRatings; simpl; tauto).
      pose proof (find_none _ _ En _ Hl) as H. cbv beta in H.
      apply leb_gt in H. lra.
  - intros I Hbig.
    destruct (recommended_fuse_cases I) as [(t & Et & _)|[_ E]];
      [|exact E].
    exfalso. apply find_some in Et as [Hin Hge]. apply geb_ge in Hge.
    apply fuses_bounded in Hin. lra.
Qed.

Lemma recommended_fuse_properties_witness :
  getRecommendedFuse 10 <= getRecommendedFuse 20
  /\ 10 * 1.25 <= getRecommendedFuse 10
  /\ getRecommendedFuse 400 = 300.
Proof.
  destruct recommended_fuse_properties as (_ & Hmono & Hcover & Hbig).
  split; [|split].
  - apply Hmono. apply Qle_bool_imp_le. reflexivity.
  - apply Hcover. apply Qle_bool_imp_le. reflexivity.
  - apply Hbig. reflexivity.
Defined.

Example recommended_fuse_for_ten_amps : getRecommendedFuse 10 == 15.
Proof. reflexivity. Qed.

(** X20.  [getNextStandardSection] answers with the smallest section of
    the table that reaches the section asked for, and with nothing
    exactly when more than 120 mm² is asked for. *)
Theorem next_standard_section_is_smallest (minSectionMm2 : Q) :
  match getNextStandardSection minSectionMm2 with
  | Some spec =>
      In spec cableStandards
      /\ minSectionMm2 <= specSectionMm2 spec
      /\ minSectionMm2 <= 120
      /\ forall s, In s cableStandards ->
                   minSectionMm2 <= specSectionMm2 s ->
                   specSectionMm2 spec <= specSectionMm2 s
  | None => 120 < minSectionMm2
  end.
Proof.
  unfold getNextStandardSection.
  destruct (List.find _ cableStandards) as [spec|] eqn:E.
  - assert (Hs : StronglySorted
                   (fun a b => specSectionMm2 a <= specSectionMm2 b)
                   cableStandards).
    { eapply StronglySorted_weaken; [|exact table_sorted_by_section].
      intros a b [H _]. exact H. }
    destruct (find_first_least specSectionMm2 _ _ _ Hs E) as [H1 H2].
    apply find_some in E as [Hin _].
    pose proof (table_sections spec Hin) as Hb.
    repeat split; try assumption. lra.
  - assert (Hl : In (mk 120 310 250 0.153) cableStandards)
      by (unfold cableStandards; simpl; tauto).
    pose proof (find_none _ _ E _ Hl) as H. cbv beta in H.
    apply leb_gt in H. exact H.
Qed.

End StandardsProperties.

(** ** Further properties: validation and connectivity *)

Section MoreValidationProperties.

Import Power Cables Validation Graph Examples Invariants.

Lemma connectedNodeIds_from (conns : list Connection) (s : gset string)
    (i : string) :
  i ∈ fold_left
        (fun s conn => {[toNodeId conn]} ∪ ({[fromNodeId conn]} ∪ s))
        conns s
  <-> i ∈ s \/ exists c, In c conns /\ (fromNodeId c = i \/ toNodeId c = i).
Proof.
  revert s. induction conns as [|c conns IH]; intros s; simpl.
  - split; [auto|]. intros [H|(c & [] & _)]. exact H.
  - rewrite IH. rewrite !elem_of_union, !elem_of_singleton. split.
    + intros [[H|[H|H]]|(c' & Hin & H)].
      * right. exists c. auto.
      * right. exists c. auto.
      * left. exact H.
      * right. exists c'. auto.
    + intros [H|(c' & [<-|Hin] & H)].
      * left. auto.
      * left. destruct H as [H|H]; auto.
      * right. exists c'. auto.
Qed.

Lemma connectedNodeIds_spec (conns : list Connection) (i : string) :
  i ∈ connectedNodeIds conns
  <-> exists c, In c conns /\ (fromNodeId c = i \/ toNodeId c = i).
Proof.
  unfold connectedNodeIds. rewrite connectedNodeIds_from. split.
  - intros [H|H]; [|exact H]. set_solver.
  - intros H. right. exact H.
Qed.

(** X21.  A node is reported as not connected exactly when it is not a
    bus, a switch or a fuse and no connection names it at either end.  The
    warning carries the node id and name, and the type [voltage_drop]. *)
Theorem disconnected_warnings_exact
    (nodes : list ElectricalNode) (conns : list Connection)
    (w : ValidationWarning) :
  In w (checkDisconnectedNodes nodes conns)
  <-> exists n,
        In n nodes
        /\ type n <> bus /\ type n <> switch /\ type n <> fuse
        /\ (forall c, In c conns ->
                      fromNodeId c <> id n /\ toNodeId c <> id n)
        /\ w = {| warnType := voltage_drop;
                  warnNodeIds := Some [id n];
                  warnConnectionId := None;
                  warnMessage := MsgNotConnected (name n) |}.
Proof.
  unfold checkDisconnectedNodes. cbv zeta. rewrite in_flat_map.
  split.
  - intros (n & Hin & Hw). exists n. split; [exact Hin|].
    unfold isType in Hw.
    destruct (bool_decide (type n = bus)) eqn:E1; [destruct Hw|].
    destruct (bool_decide (type n = switch)) eqn:E2; [destruct Hw|].
    destruct (bool_decide (type n = fuse)) eqn:E3; [destruct Hw|].
    simpl in Hw.
    destruct (bool_decide (id n ∈ connectedNodeIds conns)) eqn:E4;
      [destruct Hw|].
    apply bool_decide_eq_false in E1, E2, E3, E4.
    destruct Hw as [<-|[]]. repeat (split; [assumption|]).
    split; [|reflexivity].
    intros c Hc. split; intros Heq; apply E4, connectedNodeIds_spec;
      exists c; auto.
  - intros (n & Hin & H1 & H2 & H3 & Hc & ->). exists n.
    split; [exact Hin|]. unfold isType.
    rewrite !bool_decide_eq_false_2 by assumption. simpl.
    rewrite bool_decide_eq_false_2; [left; reflexivity|].
    intros H. apply connectedNodeIds_spec in H as (c & Hin' & Hends).
    destruct (Hc c Hin') as [Hf Ht]. destruct Hends; congruence.
Qed.

(** X22.  With ids that name one node each, a connection added anywhere
    never takes power away: an id connected to a source stays connected,
    and a consumer unpowered afterwards was unpowered before. *)
Theorem adding_connection_keeps_power
    (nodes : list ElectricalNode) (l1 l2 : list Connection)
    (c : Connection) :
  NoDup (map id nodes) ->
  (forall a,
      isNodeConnectedToSource a nodes (l1 ++ l2) = true ->
      isNodeConnectedToSource a nodes (l1 ++ c :: l2) = true)
  /\ (forall n,
        In n (findUnpoweredConsumers nodes (l1 ++ c :: l2)) ->
        In n (findUnpoweredConsumers nodes (l1 ++ l2))).
Proof.
  intros Hnd.
  assert (Hmono : forall a,
             isNodeConnectedToSource a nodes (l1 ++ l2) = true ->
             isNodeConnectedToSource a nodes (l1 ++ c :: l2) = true).
  { intros a H.
    apply (isNodeConnectedToSource_reachable nodes _ a Hnd) in H.
    apply (isNodeConnectedToSource_reachable nodes _ a Hnd).
    destruct H as (n & Hin & Hsrc & Hch). exists n.
    split; [exact Hin|]. split; [exact Hsrc|].
    eapply chain_transfer; [| |exact Hch].
    - intros x Hx. exact Hx.
    - intros x y (conn & Hc & Hends). exists conn. split; [|exact Hends].
      apply in_app_or in Hc as [Hc|Hc]; apply in_or_app; [left|right];
        [exact Hc|right; exact Hc]. }
  split; [exact Hmono|].
  intros n. unfold findUnpoweredConsumers. rewrite !filter_In.
  intros [Hin Hneg]. split; [exact Hin|].
  apply negb_true_iff in Hneg. apply negb_true_iff.
  destruct (isNodeConnectedToSource (id n) nodes (l1 ++ l2)) eqn:E;
    [|reflexivity].
  apply Hmono in E. congruence.
Qed.

Lemma adding_connection_keeps_power_witness :
  let nodes :=
    [consumerNode "lamp" V12 (Some 24) None; busNode "bar" V12;
     batteryNode "bank" V12 100 None Absent] in
  isNodeConnectedToSource "lamp" nodes
    ([cable "k1" "bank" "lamp" 2.5 3] ++ cable "k2" "bar" "lamp" 2.5 1 :: [])
  = true.
Proof.
  intros nodes.
  apply (adding_connection_keeps_power nodes
           [cable "k1" "bank" "lamp" 2.5 3] []
           (cable "k2" "bar" "lamp" 2.5 1)).
  - apply NoDup_ListNoDup. vm_compute.
    repeat (constructor; [simpl; intuition discriminate|]). constructor.
  - vm_compute. reflexivity.
Defined.

(** X23.  The search answers false for an id no node has, true for the id
    of a source node without looking at any connection, and for an id that
    no connection names it answers true only if the node is itself a
    source: a consumer without any cable is never powered. *)
Theorem connectivity_edge_cases
    (nodes : list ElectricalNode) (conns : list Connection) (a : string) :
  (nodeAt nodes a = None -> isNodeConnectedToSource a nodes conns = false)
  /\ (sourceAt nodes a -> isNodeConnectedToSource a nodes conns = true)
  /\ ((forall c, In c conns -> fromNodeId c <> a /\ toNodeId c <> a) ->
      (isNodeConnectedToSource a nodes conns = true <-> sourceAt nodes a)).
Proof.
  pose proof (isNodeConnectedToSource_searched nodes conns a) as Hs.
  split; [|split].
  - intros Hnone.
    destruct (isNodeConnectedToSource a nodes conns); [|reflexivity].
    exfalso. destruct Hs as [Hs _].
    destruct (Hs eq_refl) as (s & Hreach & m & Hm & _).
    inversion Hreach as [x|x b y (k & Hk & _) _ _]; subst.
    + unfold nodeAt in *. congruence.
    + unfold nodeAt in *. congruence.
  - intros Hsrc. apply Hs. exists a. split; [apply searched_here|exact Hsrc].
  - intros Hiso. rewrite Hs. split.
    + intros (s & Hreach & Hsrc).
      inversion Hreach as [x|x b y _ (conn & Hin & Hends) _]; subst.
      * exact Hsrc.
      * exfalso. destruct (Hiso conn Hin) as [Hf Ht].
        destruct Hends as [[H _]|[H _]]; congruence.
    + intros Hsrc. exists a. split; [apply searched_here|exact Hsrc].
Qed.

Lemma connectivity_edge_cases_witness :
  isNodeConnectedToSource "ghost"
    [consumerNode "lamp" V12 (Some 24) None] [] = false.
Proof.
  apply (connectivity_edge_cases
           [consumerNode "lamp" V12 (Some 24) None] [] "ghost").
  reflexivity.
Defined.

End MoreValidationProperties.

(** ** Further properties: the project store *)

Section StoreProperties.

Import Cables Validation Graph ProjectStore Examples Invariants.

Lemma isNode_filter (l : list ElectricalNode) (i a : string) :
  isNode l a -> a <> i ->
  isNode (List.filter (fun n => negb (String.eqb (id n) i)) l) a.
Proof.
  intros (n & Hin & Hid) Hne. exists n. split; [|exact Hid].
  apply filter_In. split; [exact Hin|].
  apply negb_true_iff, String.eqb_neq. congruence.
Qed.

Lemma isNode_find (l : list ElectricalNode) (a : string) :
  isNode l a <-> exists n, List.find (fun n => String.eqb (id n) a) l = Some n.
Proof.
  split.
  - apply isNode_nodeAt.
  - intros (n & Hn). apply nodeAt_Some in Hn as [Hin Hid]. exists n. auto.
Qed.

(** X24.  The actions of the store keep every connection attached to two
    nodes of the project: adding a node, removing a node together with
    the connections that name it, adding a connection when it is accepted,
    and removing a connection.  After [removeNode i] no node and no
    connection names [i]. *)
Theorem store_actions_keep_connections_attached (state : Store) :
  wellConnected (nodes (project state)) (connections (project state)) ->
  (forall newId input,
      let state' := snd (addNode newId input state) in
      wellConnected (nodes (project state')) (connections (project state')))
  /\ (forall i,
        let state' := removeNode i state in
        wellConnected (nodes (project state')) (connections (project state'))
        /\ (forall n, In n (nodes (project state')) -> id n <> i)
        /\ (forall c, In c (connections (project state')) ->
                      fromNodeId c <> i /\ toNodeId c <> i))
  /\ (forall newId len input conn state',
        addConnection newId len input state = inl (conn, state') ->
        wellConnected (nodes (project state')) (connections (project state')))
  /\ (forall i,
        let state' := removeConnection i state in
        wellConnected (nodes (project state')) (connections (project state'))).
Proof.
  intros Hwc. split; [|split; [|split]].
  - intros newId input. simpl. intros c Hc.
    destruct (Hwc c Hc) as [(f & Hf & Hidf) (t & Ht & Hidt)].
    split; [exists f|exists t]; (split; [apply in_or_app; left|]);
      assumption.
  - intros i. simpl. split; [|split].
    + intros c Hc. apply filter_In in Hc as [Hc Hne].
      apply andb_true_iff in Hne as [Hf Ht].
      apply negb_true_iff, String.eqb_neq in Hf, Ht.
      destruct (Hwc c Hc) as [Hnf Hnt].
      split; apply isNode_filter; assumption.
    + intros n Hn. apply filter_In in Hn as [_ Hn].
      apply negb_true_iff, String.eqb_neq in Hn. exact Hn.
    + intros c Hc. apply filter_In in Hc as [_ Hne].
      apply andb_true_iff in Hne as [Hf Ht].
      apply negb_true_iff, String.eqb_neq in Hf, Ht. auto.
  - intros newId len input conn state' Hadd. unfold addConnection in Hadd.
    cbv zeta in Hadd.
    destruct (List.find _ (nodes (project state))) as [f|] eqn:Ef;
      [|discriminate].
    destruct (List.find (fun n => String.eqb (id n) (inputToNodeId input))
                (nodes (project state))) as [t|] eqn:Et; [|discriminate].
    injection Hadd as <- <-. simpl. intros c Hc.
    apply in_app_or in Hc as [Hc|[<-|[]]]; [apply Hwc, Hc|]. simpl.
    split; apply isNode_find; eauto.
  - intros i. simpl. intros c Hc. apply filter_In in Hc as [Hc _].
    apply Hwc, Hc.
Qed.

Lemma store_actions_keep_connections_attached_witness :
  let state :=
    {| project :=
         {| nodes := [consumerNode "c" V12 (Some 120) None;
                      batteryNode "b" V12 100 None Absent];
            connections := [cable "k" "c" "b" 2.5 5] |};
       isDirty := false |} in
  connections (project (removeNode "b" state)) = []
  /\ wellConnected (nodes (project (removeNode "b" state)))
       (connections (project (removeNode "b" state))).
Proof.
  intros state. split; [reflexivity|].
  apply (store_actions_keep_connections_attached state).
  intros c [<-|[]]. split.
  - exists (consumerNode "c" V12 (Some 120) None). simpl. auto.
  - exists (batteryNode "b" V12 100 None Absent). simpl. auto.
Defined.

(** X25.  [addConnection] refuses exactly the connections with an endpoint
    id that no node of the project has; an accepted connection is put at
    the end of the list with the id and the length it was given, and
    nothing else changes. *)
Theorem addConnection_guard
    (newId : string) (len : Q) (input : CreateConnectionInput)
    (state : Store) :
  match addConnection newId len input state with
  | inl (conn, state') =>
      isNode (nodes (project state)) (inputFromNodeId input)
      /\ isNode (nodes (project state)) (inputToNodeId input)
      /\ conn = {| connId := newId;
                   fromNodeId := inputFromNodeId input;
                   toNodeId := inputToNodeId input;
                   sectionMm2 := inputSectionMm2 input;
                   lengthM := len |}
      /\ connections (project state')
         = connections (project state) ++ [conn]
      /\ nodes (project state') = nodes (project state)
      /\ isDirty state' = true
  | inr _ =>
      ~ isNode (nodes (project state)) (inputFromNodeId input)
      \/ ~ isNode (nodes (project state)) (inputToNodeId input)
  end.
Proof.
  unfold addConnection. cbv zeta.
  destruct (List.find (fun n => String.eqb (id n) (inputFromNodeId input))
              (nodes (project state))) as [f|] eqn:Ef.
  - destruct (List.find (fun n => String.eqb (id n) (inputToNodeId input))
                (nodes (project state))) as [t|] eqn:Et.
    + simpl. repeat split; try reflexivity; apply isNode_find; eauto.
    + right. intros H. apply isNode_find in H as (n & Hn). congruence.
  - left. intros H. apply isNode_find in H as (n & Hn). congruence.
Qed.





Lemma connectedIds_step (nodeId : string) (c : Connection)
    (s : gset string) (x : string) :
  x ∈ (let s1 :=
         if negb (String.eqb (fromNodeId c) nodeId)
         then {[fromNodeId c]} ∪ s else s in
       if negb (String.eqb (toNodeId c) nodeId)
       then {[toNodeId c]} ∪ s1 else s1)
  <-> x ∈ s \/ (x <> nodeId /\ (fromNodeId c = x \/ toNodeId c = x)).
Proof.
  cbv zeta.
  destruct (String.eqb_spec (fromNodeId c) nodeId) as [Ef|Ef],
           (String.eqb_spec (toNodeId c) nodeId) as [Et|Et]; simpl;
    rewrite ?elem_of_union, ?elem_of_singleton;
    intuition (subst; congruence || auto).
Qed.

Lemma connectedIds_from (nodeId : string) (l : list Connection)
    (s : gset string) (x : string) :
  x ∈ fold_left
        (fun s c =>
           let s1 :=
             if negb (String.eqb (fromNodeId c) nodeId)
             then {[fromNodeId c]} ∪ s else s in
           if negb (String.eqb (toNodeId c) nodeId)
           then {[toNodeId c]} ∪ s1 else s1)
        l s
  <-> x ∈ s
      \/ (x <> nodeId
          /\ exists c, In c l /\ (fromNodeId c = x \/ toNodeId c = x)).
Proof.
  revert s. induction l as [|c l IH]; intros s.
  - simpl. split; [auto|]. intros [H|(_ & c & [] & _)]. exact H.
  - cbn [fold_left]. rewrite IH, connectedIds_step. split.
    + intros [[H|[Hx H]]|(Hx & c' & Hin & H)].
      * left. exact H.
      * right. split; [exact Hx|]. exists c. split; [left; reflexivity|exact H].
      * right. split; [exact Hx|]. exists c'. split; [right; exact Hin|exact H].
    + intros [H|(Hx & c' & [<-|Hin] & H)].
      * left. left. exact H.
      * left. right. split; assumption.
      * right. split; [exact Hx|]. exists c'. split; assumption.
Qed.

(** X27.  [getConnectedNodes] returns, in the order of the project, the
    nodes other than the given one that share a connection with it. *)
Theorem connected_nodes_are_neighbours
    (nodeId : string) (state : Store) (n : ElectricalNode) :
  In n (getConnectedNodes nodeId state)
  <-> In n (nodes (project state))
      /\ id n <> nodeId
      /\ adjacent (connections (project state)) nodeId (id n).
Proof.
  unfold getConnectedNodes. cbv zeta. rewrite filter_In.
  rewrite bool_decide_eq_true, connectedIds_from.
  unfold getConnectionsForNode, adjacent. split.
  - intros [Hin [H|(Hne & c & Hc & Hends)]]; [set_solver|].
    split; [exact Hin|]. split; [exact Hne|].
    apply filter_In in Hc as [Hc Hor]. exists c. split; [exact Hc|].
    apply orb_true_iff in Hor.
    destruct Hor as [Hf|Ht]; [apply String.eqb_eq in Hf
                             |apply String.eqb_eq in Ht];
      destruct Hends as [H|H]; try congruence; auto.
  - intros (Hin & Hne & c & Hc & Hends). split; [exact Hin|]. right.
    split; [exact Hne|]. exists c. split.
    + apply filter_In. split; [exact Hc|]. apply orb_true_iff.
      destruct Hends as [[H _]|[H _]];
        [left|right]; apply String.eqb_eq; exact H.
    + destruct Hends as [[_ H]|[_ H]]; auto.
Qed.


End StoreProperties.

(** ** Further properties: the calculations on the former model *)

Section LegacyProperties.

Import Power Legacy Invariants.

Lemma deviceVolts_consumerOf (d : Device) :
  volts (voltage (consumerOf d)) = deviceVolts (deviceVoltage d).
Proof. unfold consumerOf. simpl. destruct (deviceVoltage d); reflexivity. Qed.

Lemma deviceVolts_pos (v : DeviceVoltage) : 0 < deviceVolts v.
Proof. destruct v; reflexivity. Qed.

Lemma device_current_agrees (d : Device) :
  (~ exists c p,
       deviceCurrentA d = Some c /\ c == 0
       /\ devicePowerW d = Some p /\ ~ p == 0) ->
  deviceCurrent d == getNodeCurrent (consumerOf d).
Proof.
  intros H. pose proof (deviceVolts_pos (deviceVoltage d)) as Hv.
  unfold deviceCurrent, getNodeCurrent, truthy.
  rewrite deviceVolts_consumerOf. unfold consumerOf. simpl.
  destruct (deviceCurrentA d) as [c|] eqn:Ec; simpl.
  - destruct (Num.eqb c 0) eqn:Ez; simpl; [|reflexivity].
    apply eqb_eq in Ez.
    destruct (devicePowerW d) as [p|] eqn:Ep; simpl;
      [|rewrite Ez; reflexivity].
    destruct (Num.eqb p 0) eqn:Epz; simpl; [rewrite Ez; reflexivity|].
    exfalso. apply H. exists c, p. repeat split; try reflexivity.
    + exact Ez.
    + intros Hz. apply eqb_eq in Hz. congruence.
  - destruct (devicePowerW d) as [p|]; simpl; [|reflexivity].
    destruct (Num.eqb p 0) eqn:Epz; simpl; [|reflexivity].
    apply eqb_eq in Epz. rewrite Epz. field. lra.
Qed.

(** X28.  The former [deviceCurrent] tests its inputs for truth, so a
    current of 0 counts as not given.  It agrees with [getNodeCurrent] on
    the same fields except for a device whose current is 0 while its power
    is set and not 0: there the former gives power over voltage and the
    latter gives 0. *)
Theorem device_current_agreement (d : Device) :
  (deviceCurrent d == getNodeCurrent (consumerOf d)
   <-> ~ exists c p,
           deviceCurrentA d = Some c /\ c == 0
           /\ devicePowerW d = Some p /\ ~ p == 0)
  /\ (forall c p,
        deviceCurrentA d = Some c -> c == 0 ->
        devicePowerW d = Some p -> ~ p == 0 ->
        deviceCurrent d == p / deviceVolts (deviceVoltage d)
        /\ getNodeCurrent (consumerOf d) == 0).
Proof.
  pose proof (deviceVolts_pos (deviceVoltage d)) as Hv.
  unfold deviceCurrent, getNodeCurrent, truthy.
  rewrite deviceVolts_consumerOf. unfold consumerOf. simpl.
  set (V := deviceVolts (deviceVoltage d)) in *. clearbody V.
  assert (Hdiv : forall p, p / V == 0 -> p == 0).
  { intros p H. assert (E : p == p / V * V) by (field; lra).
    rewrite E, H. ring. }
  destruct (deviceCurrentA d) as [c|], (devicePowerW d) as [p|]; simpl.
  - destruct (Num.eqb c 0) eqn:Ec; simpl.
    + apply eqb_eq in Ec. destruct (Num.eqb p 0) eqn:Ep; simpl.
      * apply eqb_eq in Ep. split.
        -- split; [|intros _; rewrite Ec; reflexivity].
           intros _ (c' & p' & Hc & _ & Hp & Hnz).
           injection Hp as <-. contradiction.
        -- intros c' p' Hc _ Hp Hnz. injection Hp as <-. contradiction.
      * split.
        -- split.
           ++ intros H. exfalso. rewrite Ec in H. apply Hdiv in H.
              apply eqb_eq in H. congruence.
           ++ intros H. exfalso. apply H. exists c, p.
              repeat split; try assumption.
              intros Hz. apply eqb_eq in Hz. congruence.
        -- intros c' p' Hc Hz Hp Hnz. injection Hc as <-. injection Hp as <-.
           split; [reflexivity|exact Hz].
    + split.
      * split; [|reflexivity].
        intros _ (c' & p' & Hc & Hz & _). injection Hc as <-.
        apply eqb_eq in Hz. congruence.
      * intros c' p' Hc Hz _ _. injection Hc as <-.
        apply eqb_eq in Hz. congruence.
  - split.
    + split; [intros _ (c' & p' & _ & _ & Hp & _); discriminate|].
      intros _. destruct (Num.eqb c 0) eqn:Ec; simpl; [|reflexivity].
      apply eqb_eq in Ec. rewrite Ec. reflexivity.
    + intros c' p' _ _ Hp. discriminate.
  - split.
    + split; [intros _ (c' & p' & Hc & _); discriminate|].
      intros _. destruct (Num.eqb p 0) eqn:Ep; simpl; [|reflexivity].
      apply eqb_eq in Ep. rewrite Ep. field. lra.
    + intros c' p' Hc. discriminate.
  - split.
    + split; [intros _ (c' & p' & Hc & _); discriminate|reflexivity].
    + intros c' p' Hc. discriminate.
Qed.


Lemma device_current_agreement_witness :
  let d :=
    {| deviceId := "d"; deviceName := "pump"; deviceVoltage := D12;
       devicePowerW := Some 120; deviceCurrentA := Some 0;
       deviceDailyHours := 1; deviceDutyCycle := 1 |} in
  deviceCurrent d == 120 / 12 /\ getNodeCurrent (consumerOf d) == 0.
Proof.
  intros d.
  apply (proj2 (device_current_agreement d) 0 120);
    reflexivity || discriminate.
Defined.

Lemma sumOf_map {A B : Type} (f : A -> B) (g : B -> Q) (l : list A) :
  sumOf g (map f l) = sumOf (fun x => g (f x)) l.
Proof.
  unfold sumOf. generalize 0. induction l as [|x l IH]; intros a;
    [reflexivity|]. simpl. apply IH.
Qed.

(** X29.  On devices none of which has a current of 0 together with a
    power that is set and not 0, the former daily total is the daily
    consumption of the same devices taken as consumer nodes. *)
Theorem legacy_daily_total_agrees (devices : list Device) :
  (forall d, In d devices ->
     ~ exists c p,
         deviceCurrentA d = Some c /\ c == 0
         /\ devicePowerW d = Some p /\ ~ p == 0) ->
  totalDailyAh devices
  == getTotalDailyConsumptionAh (map consumerOf devices).
Proof.
  intros H. unfold getTotalDailyConsumptionAh.
  rewrite filter_all by (intros n Hn; apply in_map_iff in Hn as (d & <- & _);
                         reflexivity).
  rewrite sumOf_map.
  change (totalDailyAh devices) with (sumOf deviceDailyAh devices).
  apply sumOf_ext_in. intros d Hd.
  pose proof (device_current_agrees d (H d Hd)) as Hagree.
  unfold deviceDailyAh, getNodeDailyAh. rewrite Hagree. reflexivity.
Qed.

Lemma legacy_daily_total_agrees_witness :
  let d :=
    {| deviceId := "d"; deviceName := "pump"; deviceVoltage := D12;
       devicePowerW := Some 120; deviceCurrentA := None;
       deviceDailyHours := 4; deviceDutyCycle := 0.5 |} in
  totalDailyAh [d] == getTotalDailyConsumptionAh (map consumerOf [d]).
Proof.
  intros d. apply (legacy_daily_total_agrees [d]).
  intros x [<-|[]] (c & p & Hc & _). discriminate.
Defined.


End LegacyProperties.

(** ** Instances of the further properties *)

Section MoreInstances.

Import CableStandards Power Battery Cables Validation Graph ProjectStore
  Examples Invariants.


Lemma next_standard_section_is_smallest_witness :
  specSectionMm2 (mk 6 40 30 3.08) <= specSectionMm2 (mk 10 60 50 1.83).
Proof.
  apply (proj2 (proj2 (proj2 (next_standard_section_is_smallest 5)))).
  - unfold cableStandards. simpl. tauto.
  - apply Qle_bool_imp_le. reflexivity.
Defined.

Lemma disconnected_warnings_exact_witness :
  In {| warnType := voltage_drop;
        warnNodeIds := Some ["lamp"%string];
        warnConnectionId := None;
        warnMessage := MsgNotConnected "lamp" |}
    (checkDisconnectedNodes [consumerNode "lamp" V12 (Some 24) None] []).
Proof.
  apply (disconnected_warnings_exact
           [consumerNode "lamp" V12 (Some 24) None] []).
  exists (consumerNode "lamp" V12 (Some 24) None).
  split; [left; reflexivity|]. repeat (split; [discriminate|]).
  split; [intros c []|reflexivity].
Defined.

Lemma addConnection_guard_witness :
  let state :=
    {| project :=
         {| nodes := [consumerNode "c" V12 (Some 120) None];
            connections := [] |};
       isDirty := false |} in
  let input :=
    {| inputFromNodeId := "c"; inputToNodeId := "ghost";
       inputSectionMm2 := 2.5 |} in
  ~ isNode (nodes (project state)) "c" \/ ~ isNode (nodes (project state)) "ghost".
Proof.
  intros state input.
  exact (addConnection_guard "k" 5 input state).
Defined.

End MoreInstances.
